(** * Peer-evaluation score tool: a shallow embedding of [src/App.tsx]

    The application is a single React component.  Its state consists of the
    evaluation matrix [allEvaluations], the selected evaluator
    [currentScorer], the axis label and a transient toast; the browser's
    local storage holds one serialized snapshot.

    Modelling conventions.
    - A JavaScript object used as a record ([Record<string, T>]) is an
      association list in property (insertion) order.  Reading a property
      is [obj_get], writing one is [obj_set] (an existing key keeps its
      position, a new key goes last).
    - Reading a property the object owns is [obj_get]; the accumulators of
      [averageScores], which are read under names they need not own, also
      look the name up in [Object.prototype] ([acc_get]).
    - Scores are integers ([Z]), quotients ([total / count], the mean of a
      cluster) exact rationals ([Q]).  The code computes with doubles,
      which agree with this as long as the sums stay below [2 ^ 53]; the
      statement about the value of a mean says so ([within_precision]).
    - [Array.prototype.sort] is the stable sort of ECMAScript, written as a
      stable insertion sort over the test [comparator(a, b) <= 0].
    - [JSON.parse], [JSON.stringify], [parseInt], [confirm], [toPng] and
      [String.prototype.localeCompare] are platform functions: their results
      are inputs of the model. *)

From Stdlib Require Import List ZArith QArith Qround Qabs Qminmax.
From Stdlib Require Import String Bool Lia Lqa.
From Stdlib Require Import Sorting.Sorted Sorting.Permutation.
Import ListNotations.

Local Open Scope string_scope.
Local Open Scope list_scope.
Local Open Scope Z_scope.

(** ** JavaScript objects as ordered association lists *)

Section Obj.
Context {V : Type}.

(** [o[k]]: [None] stands for [undefined]. *)
Fixpoint obj_get (o : list (string * V)) (k : string) : option V :=
  match o with
  | [] => None
  | (k', v) :: rest => if String.eqb k' k then Some v else obj_get rest k
  end.

(** [o[k] = v]. *)
Fixpoint obj_set (o : list (string * V)) (k : string) (v : V) : list (string * V) :=
  match o with
  | [] => [(k, v)]
  | (k', v') :: rest =>
      if String.eqb k' k then (k', v) :: rest else (k', v') :: obj_set rest k v
  end.

Definition keys (o : list (string * V)) : list string := map fst o.
Definition values (o : list (string * V)) : list V := map snd o.
End Obj.

(** A row of the matrix, [Record<string, number>], and the matrix itself,
    [Record<string, Record<string, number>>]. *)
Definition Scores := list (string * Z).
Definition Matrix := list (string * Scores).

(** [x || d] on an optional number: [undefined] and [0] are falsy. *)
Definition num_or (x : option Z) (d : Z) : Z :=
  match x with
  | Some v => if v =? 0 then d else v
  | None => d
  end.

(** [values.reduce((a, b) => a + b, 0)]. *)
Definition sum (l : list Z) : Z := fold_left Z.add l 0.

(** ** Built-in data *)

Definition participantsNames : list string :=
  [ "지운"; "대성"; "준호"; "하운"; "병주"; "형진"; "태욱"; "승재"; "현우";
    "태현"; "상혁"; "승희"; "가람"; "효민"; "웅"; "준이형"; "한을" ].

Definition jiunInitialScores : Scores :=
  [ ("대성", 100); ("준호", 95); ("하운", 90); ("병주", 80); ("형진", 70);
    ("태욱", 65); ("승재", 40); ("현우", 30); ("태현", 0); ("상혁", 0);
    ("승희", 0); ("가람", 0); ("효민", 0); ("웅", 0); ("준이형", 0); ("한을", 0) ].

(** The inner [forEach] of [getInitialData]: one pass over the subjects for
    a fixed scorer, extending that scorer's row. *)
Definition initialRow (scorer : string) : Scores :=
  fold_left
    (fun row subject =>
       if String.eqb scorer subject then row
       else
         match String.eqb scorer "지운", obj_get jiunInitialScores subject with
         | true, Some preset => obj_set row subject preset
         | _, _ => obj_set row subject 0
         end)
    participantsNames [].

Definition getInitialData : Matrix :=
  fold_left
    (fun initialMatrix scorer => obj_set initialMatrix scorer (initialRow scorer))
    participantsNames [].

(** ** [Array.prototype.sort]

    [lessEq a b] is the test [comparator(a, b) <= 0].  An element is
    inserted in front of the first element it is not greater than, so that
    equal elements keep their input order. *)

Section Sort.
Context {A : Type} (lessEq : A -> A -> bool).

Fixpoint insert (a : A) (l : list A) : list A :=
  match l with
  | [] => [a]
  | b :: rest => if lessEq a b then a :: b :: rest else b :: insert a rest
  end.

Definition Array_sort (l : list A) : list A := fold_right insert [] l.
End Sort.

(** [array.map((x, idx) => f(x, idx))]. *)
Fixpoint mapi_from {A B : Type} (f : A -> nat -> B) (idx : nat) (l : list A) : list B :=
  match l with
  | [] => []
  | x :: rest => f x idx :: mapi_from f (S idx) rest
  end.

Definition mapi {A B : Type} (f : A -> nat -> B) (l : list A) : list B :=
  mapi_from f 0%nat l.

(** [array.findIndex(p)], [None] standing for [-1]. *)
Fixpoint findIndex {A : Type} (p : A -> bool) (l : list A) : option nat :=
  match l with
  | [] => None
  | x :: rest => if p x then Some 0%nat else option_map S (findIndex p rest)
  end.

(** The last element of an array, [a[a.length - 1]]. *)
Definition last_opt {A : Type} (l : list A) : option A :=
  match rev l with
  | [] => None
  | x :: _ => Some x
  end.

(** [row || {}]. *)
Definition row_or_empty (r : option Scores) : Scores :=
  match r with
  | Some row => row
  | None => []
  end.

(** ** The score list of the current evaluator *)

Record Person := { name : string; score : Z; hue : Q }.

Definition currentScores (allEvaluations : Matrix) (currentScorer : string) : list Person :=
  let scores := row_or_empty (obj_get allEvaluations currentScorer) in
  mapi (fun entry idx =>
          {| name := fst entry;
             score := snd entry;
             hue := Qdiv (inject_Z (Z.of_nat idx * 360)) 16 |})
       scores.

(** ** Label layout: [graphDisplayItems] *)

Definition SCORE_BAND : Z := 12.
Definition STAGGER_THRESHOLD : Q := 18.
Definition VERTICAL_OFFSET : Z := 26.

Inductive Item :=
| single (person : Person) (centerX : Q) (yOffset : option Z)
| cluster (centerX : Q) (members : list Person).

Definition centerX (it : Item) : Q :=
  match it with
  | single _ x _ => x
  | cluster x _ => x
  end.

Definition item_members (it : Item) : list Person :=
  match it with
  | single p _ _ => [p]
  | cluster _ ms => ms
  end.

(** The comparator [(a, b) => a.score - b.score || a.name.localeCompare(b.name)]. *)
Definition byScoreThenName (localeCompare : string -> string -> Z) (a b : Person) : Z :=
  let d := score a - score b in
  if Z.eqb d 0 then localeCompare (name a) (name b) else d.

(** One iteration of the grouping loop over [(groups, currentGroup)]. *)
Definition group_step (st : list (list Person) * list Person) (person : Person)
  : list (list Person) * list Person :=
  let '(groups, currentGroup) := st in
  let inRange :=
    match last_opt currentGroup with
    | Some prev => Z.abs (score person - score prev) <=? SCORE_BAND
    | None => false
    end in
  if inRange then (groups, currentGroup ++ [person])
  else
    (match currentGroup with
     | [] => groups
     | _ :: _ => groups ++ [currentGroup]
     end,
     [person]).

Definition groupByBand (sorted : list Person) : list (list Person) :=
  let '(groups, currentGroup) := fold_left group_step sorted ([], []) in
  match currentGroup with
  | [] => groups
  | _ :: _ => groups ++ [currentGroup]
  end.

Definition centerScore (members : list Person) : Q :=
  Qdiv (inject_Z (fold_left (fun s p => s + score p) members 0))
       (inject_Z (Z.of_nat (List.length members))).

Definition toItem (members : list Person) : Item :=
  let cx := Qmin 97 (Qmax 3 (centerScore members)) in
  match members with
  | [p] => single p cx None
  | _ => cluster cx members
  end.

(** Entries of [singleIndices]: [{ idx, x, name }]. *)
Record SingleIndex := { si_idx : nat; si_x : Q; si_name : string }.

Definition singleIndices (items : list Item) : list SingleIndex :=
  List.concat
    (mapi (fun item idx =>
             match item with
             | single p x _ => [{| si_idx := idx; si_x := x; si_name := name p |}]
             | cluster _ _ => []
             end)
          items).

(** [yOffsets], a [Map<number, number>]. *)
Fixpoint map_get (m : list (nat * Z)) (k : nat) : option Z :=
  match m with
  | [] => None
  | (k', v) :: rest => if Nat.eqb k' k then Some v else map_get rest k
  end.

Fixpoint map_set (m : list (nat * Z)) (k : nat) (v : Z) : list (nat * Z) :=
  match m with
  | [] => [(k, v)]
  | (k', v') :: rest =>
      if Nat.eqb k' k then (k', v) :: rest else (k', v') :: map_set rest k v
  end.

Definition Qltb (x y : Q) : bool := negb (Qle_bool y x).

Definition stagger_step (singles : list SingleIndex) (yOffsets : list (nat * Z))
  (s : SingleIndex) : list (nat * Z) :=
  let nearby :=
    Array_sort (fun a b => Qle_bool (si_x a - si_x b) 0)
      (filter (fun t => Qltb (Qabs (si_x t - si_x s)) STAGGER_THRESHOLD) singles) in
  if (List.length nearby <? 2)%nat then yOffsets
  else
    match findIndex (fun n => String.eqb (si_name n) (si_name s)) nearby with
    | Some myPos =>
        map_set yOffsets (si_idx s)
          (if Nat.even myPos then VERTICAL_OFFSET else - VERTICAL_OFFSET)
    | None => yOffsets
    end.

Definition applyOffsets (yOffsets : list (nat * Z)) (items : list Item) : list Item :=
  mapi (fun item idx =>
          match item, map_get yOffsets idx with
          | single p x _, Some off => single p x (Some off)
          | _, _ => item
          end)
       items.

Definition graphDisplayItems (localeCompare : string -> string -> Z)
  (currentScores : list Person) : list Item :=
  let sorted :=
    Array_sort (fun a b => byScoreThenName localeCompare a b <=? 0) currentScores in
  let groups := groupByBand sorted in
  let items := map toItem groups in
  let singles := singleIndices items in
  let yOffsets := fold_left (stagger_step singles) singles [] in
  let items := applyOffsets yOffsets items in
  Array_sort (fun a b => Qle_bool (centerX a - centerX b) 0) items.

(** ** Leaderboard: [hasEvaluated] and [averageScores] *)

Definition hasEvaluated (allEvaluations : Matrix) : list (string * bool) :=
  fold_left
    (fun result name =>
       let evals := row_or_empty (obj_get allEvaluations name) in
       obj_set result name (0 <? sum (values evals)))
    participantsNames [].

(** The accumulators [totals] and [counts] are created as [{}] and read with
    [o[name]], so a name the object does not own is looked up in
    [Object.prototype].  Its members are functions, and [__proto__] yields
    the prototype object itself: all truthy, and none a number. *)
Definition Object_prototype : list string :=
  [ "constructor"; "__defineGetter__"; "__defineSetter__"; "hasOwnProperty";
    "__lookupGetter__"; "__lookupSetter__"; "isPrototypeOf";
    "propertyIsEnumerable"; "toString"; "valueOf"; "__proto__";
    "toLocaleString" ].

Definition inherited (name : string) : bool :=
  existsb (String.eqb name) Object_prototype.

(** What an accumulator holds under a name: a number, or the string that
    [+] makes of an inherited member and a number (it starts with the
    member's source text and is not numeric). *)
Inductive JsValue := JNumber (z : Z) | JString.

Inductive Lookup := own (v : JsValue) | from_prototype | undefined.

(** [o[name]] on an accumulator. *)
Definition acc_get (o : list (string * JsValue)) (name : string) : Lookup :=
  match obj_get o name with
  | Some v => own v
  | None => if inherited name then from_prototype else undefined
  end.

(** [(o[name] || 0) + x] for a number [x]: addition on a number, string
    concatenation on anything else that is truthy. *)
Definition or_zero_plus (l : Lookup) (x : Z) : JsValue :=
  match l with
  | own (JNumber v) => JNumber (num_or (Some v) 0 + x)
  | own JString => JString
  | from_prototype => JString
  | undefined => JNumber (num_or None 0 + x)
  end.

(** [o[name] = v].  The setter behind [__proto__] ignores a value that is
    not an object; any other name becomes (or stays) an own property. *)
Definition acc_set (o : list (string * JsValue)) (name : string) (v : JsValue)
  : list (string * JsValue) :=
  if String.eqb name "__proto__" then o else obj_set o name v.

(** One pass of the inner [forEach] over the entries of [evals]. *)
Definition tally_entry (hasEvaluated : bool)
  (acc : list (string * JsValue) * list (string * JsValue))
  (entry : string * Z) : list (string * JsValue) * list (string * JsValue) :=
  let '(totals, counts) := acc in
  let '(name, score) := entry in
  let totals := acc_set totals name (or_zero_plus (acc_get totals name) score) in
  let counts :=
    if hasEvaluated then acc_set counts name (or_zero_plus (acc_get counts name) 1)
    else counts in
  (totals, counts).

Definition tally_row (acc : list (string * JsValue) * list (string * JsValue))
  (evals : Scores) : list (string * JsValue) * list (string * JsValue) :=
  let sumGiven := sum (values evals) in
  let hasEvaluated := 0 <? sumGiven in
  fold_left (tally_entry hasEvaluated) evals acc.

(** The pair [(totals, counts)] after the outer [forEach]. *)
Definition tally (allEvaluations : Matrix)
  : list (string * JsValue) * list (string * JsValue) :=
  fold_left tally_row (values allEvaluations) ([], []).

(** [Math.round]: the nearest integer, halves going up. *)
Definition Math_round (q : Q) : Z := Qfloor (q + (1 # 2)).

(** The divisor [counts[name] || 1]; [None] when it is not a number (an
    inherited member, or a string made from one). *)
Definition denominator (counts : list (string * JsValue)) (name : string) : option Z :=
  match acc_get counts name with
  | own (JNumber c) => Some (num_or (Some c) 1)
  | own JString => None
  | from_prototype => None
  | undefined => Some (num_or None 1)
  end.

(** [Math.round(total / divisor)]; [None] is [NaN], which is what the
    division yields as soon as one operand is not a number. *)
Definition rounded_quotient (total : JsValue) (divisor : option Z) : option Z :=
  match total, divisor with
  | JNumber t, Some d => Some (Math_round (Qdiv (inject_Z t) (inject_Z d)))
  | _, _ => None
  end.

(** The comparator [(a, b) => b.score - a.score] as the test
    [comparator(a, b) <= 0]; a [NaN] result counts as [+0], as the sort
    takes it.  (With [NaN] among the scores the comparator is not
    consistent and the order of the result is left to the engine.) *)
Definition byScoreDescending (a b : string * option Z) : bool :=
  match snd b, snd a with
  | Some y, Some x => y - x <=? 0
  | _, _ => true
  end.

Definition averageScores (allEvaluations : Matrix) : list (string * option Z) :=
  let '(totals, counts) := tally allEvaluations in
  Array_sort byScoreDescending
    (map (fun entry =>
            (fst entry, rounded_quotient (snd entry) (denominator counts (fst entry))))
         totals).

(** What the leaderboard panel shows: the first five entries, or a notice
    ([None]) while nobody has evaluated. *)
Definition leaderboard (allEvaluations : Matrix) : option (list (string * option Z)) :=
  if existsb (fun b => b) (values (hasEvaluated allEvaluations))
  then Some (firstn 5 (averageScores allEvaluations))
  else None.

(** ** Application state *)

Inductive ToastType := success | error.

Record Toast := { message : string; type : ToastType }.

Record State := {
  allEvaluations : Matrix;
  currentScorer : string;
  axisLabel : string;
  toast : option Toast
}.

Definition setAllEvaluations (st : State) (m : Matrix) : State :=
  {| allEvaluations := m; currentScorer := currentScorer st;
     axisLabel := axisLabel st; toast := toast st |}.

Definition setAxisLabel (st : State) (l : string) : State :=
  {| allEvaluations := allEvaluations st; currentScorer := currentScorer st;
     axisLabel := l; toast := toast st |}.

Definition setCurrentScorer (st : State) (n : string) : State :=
  {| allEvaluations := allEvaluations st; currentScorer := n;
     axisLabel := axisLabel st; toast := toast st |}.

Definition setToast (st : State) (t : option Toast) : State :=
  {| allEvaluations := allEvaluations st; currentScorer := currentScorer st;
     axisLabel := axisLabel st; toast := t |}.

Definition showToast (st : State) (msg : string) (ty : ToastType) : State :=
  setToast st (Some {| message := msg; type := ty |}).

(** The state updater of [updateScore]:
    [{ ...prev, [currentScorer]: { ...prev[currentScorer], [subjectName]: newScore } }]. *)
Definition updateScoreMatrix (prev : Matrix) (currentScorer subjectName : string)
  (newScore : Z) : Matrix :=
  obj_set prev currentScorer
    (obj_set (row_or_empty (obj_get prev currentScorer)) subjectName newScore).

Definition updateScore (st : State) (subjectName : string) (newScore : Z) : State :=
  setAllEvaluations st
    (updateScoreMatrix (allEvaluations st) (currentScorer st) subjectName newScore).

(** ** JSON text as seen by its readers

    What [JSON.parse] makes of a text, as far as the two readers (the start-up
    initializers and [importFromJson]) look at it: it throws, or it yields
    [null] (reading a property of which throws), or it yields a value whose
    properties [allEvaluations] and [axisLabel] are read.  A property is
    [None] when it is absent or holds a falsy non-string value; a matrix is an
    object and therefore truthy; a label is truthy unless it is empty. *)

Inductive Parsed :=
| SyntaxError (msg : string)
| ParsedNull (msg : string)
| ParsedObject (p_allEvaluations : option Matrix) (p_axisLabel : option string).

(** [if (label) ...] for an optional string. *)
Definition truthy_label (l : option string) : option string :=
  match l with
  | Some s => if String.eqb s "" then None else Some s
  | None => None
  end.

(** What [JSON.parse] returns on the text [JSON.stringify] wrote for an
    object with the properties [allEvaluations] and [axisLabel] (other
    properties, such as [exportedAt], are not read back). *)
Definition JSON_roundtrip (m : Matrix) (l : string) : Parsed :=
  ParsedObject (Some m) (Some l).

(** The item of local storage under [STORAGE_KEY]. *)
Inductive Stored :=
| absent
| empty_text
| text (content : Parsed).

(** ** Start-up initializers *)

Definition defaultAxisLabel : string := "식 점수".

Definition initAllEvaluations (saved : Stored) : Matrix :=
  match saved with
  | absent | empty_text => getInitialData
  | text (SyntaxError _) | text (ParsedNull _) => getInitialData
  | text (ParsedObject (Some m) _) => m
  | text (ParsedObject None _) => getInitialData
  end.

Definition initAxisLabel (saved : Stored) : string :=
  match saved with
  | absent | empty_text => defaultAxisLabel
  | text (SyntaxError _) | text (ParsedNull _) => defaultAxisLabel
  | text (ParsedObject _ l) =>
      match truthy_label l with
      | Some s => s
      | None => defaultAxisLabel
      end
  end.

Definition initState (saved : Stored) : State :=
  {| allEvaluations := initAllEvaluations saved;
     currentScorer := "지운";
     axisLabel := initAxisLabel saved;
     toast := None |}.

(** ** Export and import *)

Record ExportData := {
  exp_axisLabel : string;
  exp_allEvaluations : Matrix;
  exportedAt : string
}.

(** The object [data] that [exportToJson] serializes into the download. *)
Definition exportData (st : State) (now : string) : ExportData :=
  {| exp_axisLabel := axisLabel st;
     exp_allEvaluations := allEvaluations st;
     exportedAt := now |}.

(** The downloaded file as [JSON.parse] reads it back. *)
Definition exportFile (d : ExportData) : Parsed :=
  JSON_roundtrip (exp_allEvaluations d) (exp_axisLabel d).

Definition exportToJson (st : State) : State :=
  showToast st "JSON 파일이 다운로드되었습니다." success.

(** The guard in front of [confirm]:
    [Object.keys(allEvaluations).some(s =>
       Object.values(allEvaluations[s] || {}).some(v => v > 0))]. *)
Definition hasData (m : Matrix) : bool :=
  existsb
    (fun s => existsb (fun v => 0 <? v) (values (row_or_empty (obj_get m s))))
    (keys m).

Definition importFailed (st : State) (msg : string) : State :=
  showToast st (String.append "파일 불러오기 실패: " msg) error.

(** The [onload] handler of [importFromJson]; [confirmed] is the answer the
    user gives to [confirm] when it is asked. *)
Definition importFromJson (st : State) (file : Parsed) (confirmed : bool) : State :=
  match file with
  | SyntaxError msg => importFailed st msg
  | ParsedNull msg => importFailed st msg
  | ParsedObject None _ => importFailed st "올바르지 않은 데이터 형식입니다."
  | ParsedObject (Some m) l =>
      if hasData (allEvaluations st) && negb confirmed then st
      else
        let st := setAllEvaluations st m in
        let st :=
          match truthy_label l with
          | Some s => setAxisLabel st s
          | None => st
          end in
        showToast st "파일을 성공적으로 불러왔습니다." success
  end.

(** ** Image export *)

Definition saveGraphAsImage (st : State) (toPng_ok : bool) : State :=
  if toPng_ok then showToast st "이미지가 저장되었습니다." success
  else showToast st "이미지 저장에 실패했습니다." error.

(** ** Events and the persistence effect *)

Record World := { ui : State; localStorage : Stored }.

Inductive Event :=
| SliderChange (subject : string) (value : Z)
| NumberChange (subject : string) (parsed : option Z)
| NumberBlur (subject : string) (parsed : option Z)
| AxisLabelChange (value : string)
| SelectScorer (who : string)
| ImportFile (file : Parsed) (confirmed : bool)
| ExportClick
| SaveImageClick (toPng_ok : bool)
| ToastTimeout.

(** The event handlers; [parsed] is the result of [parseInt] on the input's
    text, [None] standing for [NaN]. *)
Definition handle (st : State) (e : Event) : State :=
  match e with
  | SliderChange subject value => updateScore st subject value
  | NumberChange subject (Some v) => updateScore st subject (Z.min 100 (Z.max 0 v))
  | NumberChange _ None => st
  | NumberBlur subject None => updateScore st subject 0
  | NumberBlur _ (Some _) => st
  | AxisLabelChange value => setAxisLabel st value
  | SelectScorer who => setCurrentScorer st who
  | ImportFile file confirmed => importFromJson st file confirmed
  | ExportClick => exportToJson st
  | SaveImageClick ok => saveGraphAsImage st ok
  | ToastTimeout => setToast st None
  end.

(** Whether the handler went through [setAllEvaluations] with a fresh object
    or changed the label: the dependencies of the persistence effect. *)
Definition touches (st : State) (e : Event) : bool :=
  match e with
  | SliderChange _ _ => true
  | NumberChange _ (Some _) => true
  | NumberBlur _ None => true
  | AxisLabelChange value => negb (String.eqb value (axisLabel st))
  | ImportFile (ParsedObject (Some _) _) confirmed =>
      negb (hasData (allEvaluations st) && negb confirmed)
  | _ => false
  end.

Definition storageFull : Toast :=
  {| message := "저장 공간이 부족합니다."; type := error |}.

(** The effect [localStorage.setItem(STORAGE_KEY, JSON.stringify({ allEvaluations,
    axisLabel }))] inside its [try]; [writable] tells whether [setItem]
    returns normally. *)
Definition persist (writable : bool) (w : World) : World :=
  if writable then
    {| ui := ui w;
       localStorage := text (JSON_roundtrip (allEvaluations (ui w)) (axisLabel (ui w))) |}
  else
    {| ui := setToast (ui w) (Some storageFull); localStorage := localStorage w |}.

Definition step (writable : bool) (w : World) (e : Event) : World :=
  let w' := {| ui := handle (ui w) e; localStorage := localStorage w |} in
  if touches (ui w) e then persist writable w' else w'.

(** Mounting the component: the initializers read the storage, then the
    effect runs once. *)
Definition startup (saved : Stored) (writable : bool) : World :=
  persist writable {| ui := initState saved; localStorage := saved |}.

Definition run (w : World) (trace : list (bool * Event)) : World :=
  fold_left (fun w we => step (fst we) w (snd we)) trace w.

(** What the rendered controls can send in a given state: the inputs exist
    only for the subjects of the current row, a range input with
    [min="0" max="100"] reports a value within its bounds, and a scorer
    button exists for each participant. *)
Definition ui_event (st : State) (e : Event) : Prop :=
  match e with
  | SliderChange subject value =>
      In subject (map name (currentScores (allEvaluations st) (currentScorer st)))
      /\ 0 <= value <= 100
  | NumberChange subject _ | NumberBlur subject _ =>
      In subject (map name (currentScores (allEvaluations st) (currentScorer st)))
  | SelectScorer who => In who participantsNames
  | _ => True
  end.

Inductive reachable : World -> Prop :=
| reach_start (saved : Stored) (writable : bool) :
    reachable (startup saved writable)
| reach_step (w : World) (writable : bool) (e : Event) :
    reachable w -> ui_event (ui w) e -> reachable (step writable w e).

(** ** Vocabulary of the properties *)

Definition defaultState : State :=
  {| allEvaluations := getInitialData; currentScorer := "지운";
     axisLabel := defaultAxisLabel; toast := None |}.

Definition import_failure (e : Event) : Prop :=
  match e with
  | ImportFile (SyntaxError _) _
  | ImportFile (ParsedNull _) _
  | ImportFile (ParsedObject None _) _ => True
  | _ => False
  end.

Definition write_failure (writable : bool) (st : State) (e : Event) : Prop :=
  touches st e = true /\ writable = false.

Definition image_failure (e : Event) : Prop := e = SaveImageClick false.

(** A step raises an error when it leaves an error toast that was not
    there before. *)
Definition error_raised (w w' : World) : Prop :=
  exists t, toast (ui w') = Some t /\ type t = error /\ toast (ui w) <> Some t.

(** The score-range invariant of a matrix and of a stored snapshot. *)
Definition scores_in_range (m : Matrix) : Prop :=
  forall evaluator row subject v,
    In (evaluator, row) m -> In (subject, v) row -> 0 <= v <= 100.

Definition on_snapshot (P : Matrix -> Prop) (s : Stored) : Prop :=
  match s with
  | text (ParsedObject (Some m) _) => P m
  | _ => True
  end.

(** The evaluator keys are the built-in participants. *)
Definition participants_fixed (m : Matrix) : Prop := keys m = participantsNames.

(** A trace whose events the controls can send and whose imported files
    carry a matrix satisfying [P]. *)
Definition import_carries (P : Matrix -> Prop) (e : Event) : Prop :=
  match e with
  | ImportFile (ParsedObject (Some m) _) _ => P m
  | _ => True
  end.

Fixpoint valid_trace (P : Matrix -> Prop) (w : World) (trace : list (bool * Event))
  : Prop :=
  match trace with
  | [] => True
  | (writable, e) :: rest =>
      ui_event (ui w) e /\ import_carries P e /\
      valid_trace P (step writable w e) rest
  end.

(** Matrix and label of [after] are those of [exported]. *)
Definition restored (exported after : State) : Prop :=
  allEvaluations after = allEvaluations exported /\
  axisLabel after = axisLabel exported.

(** Sample inputs. *)
Definition freshWorld : World := startup absent true.

Definition outOfRangeFile : Parsed :=
  ParsedObject (Some [("지운", [("대성", 500)])]) None.

Definition strangerFile : Parsed :=
  ParsedObject (Some [("손님", [("지운", 50)])]) None.

Definition unlabelledWorld : World := step true freshWorld (AxisLabelChange "").

(** The scores a submission gives to one subject. *)
Definition given (subject : string) (evals : list (string * Z)) : list Z :=
  map snd (filter (fun e => String.eqb (fst e) subject) evals).

(** A submission is non-empty when the scores it gives add up to more
    than 0. *)
Definition nonEmpty (evals : Scores) : bool := 0 <? sum (values evals).

(** The scores given to a subject by all evaluators, and by those whose
    submission is non-empty. *)
Definition all_scores (m : Matrix) (subject : string) : list Z :=
  flat_map (given subject) (values m).

Definition counted_scores (m : Matrix) (subject : string) : list Z :=
  flat_map (fun evals => if nonEmpty evals then given subject evals else [])
           (values m).

(** The arithmetic mean of a list of scores; the mean of no scores at all is
    taken to be 0. *)
Definition mean (l : list Z) : Q :=
  match l with
  | [] => 0
  | _ :: _ => Qdiv (inject_Z (sum l)) (inject_Z (Z.of_nat (List.length l)))
  end.

Definition nonnegative (m : Matrix) : Prop :=
  forall evaluator row subject v,
    In (evaluator, row) m -> In (subject, v) row -> 0 <= v.

Definition all_zero (m : Matrix) : Prop :=
  forall evaluator row subject v,
    In (evaluator, row) m -> In (subject, v) row -> v = 0.

(** One entry [(name, 1)] for every entry of a non-empty submission: what
    the loops of [averageScores] add to [counts]. *)
Definition count_entries (rows : list Scores) : list (string * Z) :=
  flat_map (fun evals => if nonEmpty evals then map (fun e => (fst e, 1)) evals else [])
           rows.

(** The update [o[k] = (o[k] || 0) + x] of an accumulator. *)
Definition add_total (o : list (string * JsValue)) (e : string * Z)
  : list (string * JsValue) :=
  acc_set o (fst e) (or_zero_plus (acc_get o (fst e)) (snd e)).

(** No subject of the matrix bears the name of a member of
    [Object.prototype]. *)
Definition plain_subjects (m : Matrix) : Prop :=
  forall evaluator row subject v,
    In (evaluator, row) m -> In (subject, v) row -> inherited subject = false.


(** Two ranked entries in order: both scores are numbers and the first is
    not below the second. *)
Definition ranked_before (a b : string * option Z) : Prop :=
  exists x y, snd a = Some x /\ snd b = Some y /\ y <= x.

(** The number an accumulator holds under a name, 0 when it holds none. *)
Definition held (x : option JsValue) : Z :=
  match x with
  | Some (JNumber v) => v
  | _ => 0
  end.

(** The divisor of a subject: the number of scores it got from non-empty
    submissions, or 1 when it got none. *)
Definition divisor_of (m : Matrix) (subject : string) : Z :=
  match counted_scores m subject with
  | [] => 1
  | _ :: _ => Z.of_nat (List.length (counted_scores m subject))
  end.

(** A matrix of zeros in which a subject is called like a member of
    [Object.prototype], and the file that brings it. *)
Definition constructorMatrix : Matrix := [("갑", [("constructor", 0)])].

Definition constructorFile : Parsed := ParsedObject (Some constructorMatrix) None.



(** The band test of the grouping loop: [b] comes right after [a]. *)
Definition within_band (a b : Person) : Prop :=
  Z.abs (score b - score a) <= SCORE_BAND.

(** A run: a non-empty group in which every member is within the band of
    the member before it. *)
Definition is_run (g : list Person) : Prop :=
  g <> [] /\ Sorted within_band g.

(** Runs are maximal: the first member of a group is out of the band of the
    last member of the group before it. *)
Fixpoint separated (groups : list (list Person)) : Prop :=
  match groups with
  | g1 :: rest =>
      match rest with
      | g2 :: _ =>
          (forall a b, last_opt g1 = Some a -> hd_error g2 = Some b -> ~ within_band a b)
          /\ separated rest
      | [] => True
      end
  | [] => True
  end.

(** The order the first sort establishes between neighbours. *)
Definition score_then_name (localeCompare : string -> string -> Z) (a b : Person)
  : Prop :=
  score a < score b \/ (score a = score b /\ localeCompare (name a) (name b) <= 0).

(** [Math.min(97, Math.max(3, x))]. *)
Definition clampX (x : Q) : Q := Qmin 97 (Qmax 3 x).

(** How a group is rendered: its position is the clamped mean of its
    members' scores; a cluster has at least two members. *)
Definition rendered (it : Item) : Prop :=
  centerX it = clampX (mean (map score (item_members it))) /\
  match it with
  | single _ _ _ => True
  | cluster _ ms => (2 <= List.length ms)%nat
  end.

(** The grouping loop from an open group [c], written by recursion on the
    remaining input. *)
Fixpoint runs_from (c : list Person) (l : list Person) : list (list Person) :=
  match l with
  | [] => match c with [] => [] | _ :: _ => [c] end
  | p :: rest =>
      match last_opt c with
      | Some prev =>
          if Z.abs (score p - score prev) <=? SCORE_BAND
          then runs_from (c ++ [p]) rest
          else c :: runs_from [p] rest
      | None => runs_from [p] rest
      end
  end.

(** A comparison of names by code points, as a sample [localeCompare]. *)
Definition codePointCompare (a b : string) : Z :=
  match String.compare a b with
  | Lt => -1
  | Eq => 0
  | Gt => 1
  end.

(** ** Further parts of the component *)

(** The "TOP 3" panel: [[...currentScores].sort((a, b) => b.score - a.score).slice(0, 3)]. *)
Definition topThree (currentScores : list Person) : list Person :=
  firstn 3 (Array_sort (fun a b => score b - score a <=? 0) currentScores).

(** The cell [m[evaluator][subject]], [None] when the row or the entry is
    missing. *)
Definition score_of (m : Matrix) (evaluator subject : string) : option Z :=
  obj_get (row_or_empty (obj_get m evaluator)) subject.

(** The import handler of the component's earlier version (the second
    source file): no question is asked, and a failure is reported through
    [alert], whose message is the second component of the result. *)
Definition importFromJson_v0 (st : State) (file : Parsed) : State * option string :=
  let failed msg :=
    (st, Some (String.append "파일을 불러오는 중 오류가 발생했습니다: " msg)) in
  match file with
  | SyntaxError msg => failed msg
  | ParsedNull msg => failed msg
  | ParsedObject None _ => failed "올바르지 않은 데이터 형식입니다."
  | ParsedObject (Some m) l =>
      let st := setAllEvaluations st m in
      (match truthy_label l with
       | Some s => setAxisLabel st s
       | None => st
       end,
       None)
  end.

(** The storage holds the snapshot of the current matrix and label. *)
Definition in_sync (w : World) : Prop :=
  localStorage w
  = text (JSON_roundtrip (allEvaluations (ui w)) (axisLabel (ui w))).

(** Consecutive groups are more than the band apart: the first member of a
    group scores more than [SCORE_BAND] above the last member of the group
    before it. *)
Fixpoint gapped (groups : list (list Person)) : Prop :=
  match groups with
  | g1 :: rest =>
      match rest with
      | g2 :: _ =>
          (forall a b, last_opt g1 = Some a -> hd_error g2 = Some b ->
                       SCORE_BAND < score b - score a)
          /\ gapped rest
      | [] => True
      end
  | [] => True
  end.

(** The single-member items with their positions, as the stagger loop of
    [graphDisplayItems] sees them. *)
Definition layout_singles (localeCompare : string -> string -> Z)
  (currentScores : list Person) : list SingleIndex :=
  singleIndices
    (map toItem
       (groupByBand
          (Array_sort (fun a b => byScoreThenName localeCompare a b <=? 0)
             currentScores))).

(** The vertical offset an item carries. *)
Definition yOffset_of (it : Item) : option Z :=
  match it with
  | single _ _ o => o
  | cluster _ _ => None
  end.

(** A sample list with three far-apart scores. *)
Definition spreadScores : list Person :=
  currentScores [("갑", [("을", 0); ("병", 50); ("정", 100)])] "갑".

(** What the staggering is for: labels of single items that lie closer
    together than [STAGGER_THRESHOLD] sit at different heights. *)
Definition alternating (items : list Item) : Prop :=
  forall p q x1 x2 o1 o2,
    In (single p x1 o1) items -> In (single q x2 o2) items ->
    name p <> name q ->
    (Qabs (x2 - x1) < STAGGER_THRESHOLD)%Q ->
    o1 <> o2.

(** The fresh application after two slider moves: 태현 to 17, 승재 to 43. *)
Definition staggerSample : World :=
  step true (step true freshWorld (SliderChange "태현" 17)) (SliderChange "승재" 43).

(** * Properties *)

(** ** Objects *)

Section ObjFacts.
Context {V : Type}.
Implicit Types (o : list (string * V)) (k : string) (v : V).

Lemma obj_get_set_same o k v : obj_get (obj_set o k v) k = Some v.
Proof.
  induction o as [| [k' v'] rest IH]; simpl.
  - now rewrite String.eqb_refl.
  - destruct (String.eqb k' k) eqn:E; simpl; rewrite E; auto.
Qed.

Lemma obj_get_set_other o k k' v :
  k <> k' -> obj_get (obj_set o k v) k' = obj_get o k'.
Proof.
  intros Hne. induction o as [| [k0 v0] rest IH]; simpl.
  - destruct (String.eqb k k') eqn:E; auto.
    apply String.eqb_eq in E. contradiction.
  - destruct (String.eqb k0 k) eqn:E; simpl.
    + apply String.eqb_eq in E. subst k0.
      destruct (String.eqb k k') eqn:E'; auto.
      apply String.eqb_eq in E'. contradiction.
    + now rewrite IH.
Qed.

Lemma keys_obj_set_present o k v :
  In k (keys o) -> keys (obj_set o k v) = keys o.
Proof.
  induction o as [| [k0 v0] rest IH]; simpl; [tauto |].
  intros [-> | Hin].
  - now rewrite String.eqb_refl.
  - destruct (String.eqb k0 k); simpl; auto. now rewrite IH.
Qed.

Lemma obj_get_In o k v : obj_get o k = Some v -> In (k, v) o.
Proof.
  induction o as [| [k0 v0] rest IH]; simpl; [discriminate |].
  destruct (String.eqb k0 k) eqn:E.
  - apply String.eqb_eq in E. intros [= ->]. subst. now left.
  - intros H. right. auto.
Qed.

Lemma obj_get_keys o k : In k (keys o) -> exists v, obj_get o k = Some v.
Proof.
  induction o as [| [k0 v0] rest IH]; simpl; [tauto |].
  intros H. destruct (String.eqb k0 k) eqn:E; [eauto |].
  destruct H as [-> | H]; [| auto].
  rewrite String.eqb_refl in E. discriminate.
Qed.

Lemma In_obj_set o k v k' v' :
  In (k', v') (obj_set o k v) -> (k' = k /\ v' = v) \/ In (k', v') o.
Proof.
  induction o as [| [k0 v0] rest IH]; simpl.
  - intros [[= <- <-] | []]. now left.
  - destruct (String.eqb k0 k) eqn:E; simpl.
    + apply String.eqb_eq in E. subst k0.
      intros [[= <- <-] | H]; auto.
    + intros [H | H]; auto. destruct (IH H); auto.
Qed.
End ObjFacts.

(** ** The built-in matrix *)

(** C9: the built-in initial matrix has one row per participant, in the
    order of [participantsNames]; a row lists every participant except its
    own scorer (so nobody evaluates themselves and everybody else is a
    subject); the row of "지운" is the preset table and every score of every
    other row is 0. *)
Theorem getInitialData_shape :
  List.length participantsNames = 17%nat /\
  keys getInitialData = participantsNames /\
  Forall
    (fun scorer =>
       exists row,
         obj_get getInitialData scorer = Some row /\
         ~ In scorer (keys row) /\
         keys row = filter (fun s => negb (String.eqb s scorer)) participantsNames /\
         (scorer = "지운" -> row = jiunInitialScores) /\
         (scorer <> "지운" -> Forall (fun v => v = 0) (values row)))
    participantsNames.
Proof.
  split; [reflexivity |]. split; [reflexivity |].
  unfold participantsNames at 2.
  repeat
    (apply Forall_cons;
     [ eexists; split; [vm_compute; reflexivity |];
       split; [ vm_compute; intros H;
                repeat (destruct H as [H | H]; [discriminate H |]); exact H |];
       split; [ reflexivity |];
       split; [ intros H; first [ reflexivity | discriminate H ]
              | intros H; first [ contradiction (H eq_refl)
                                | repeat constructor ] ]
     |]).
  apply Forall_nil.
Qed.

(** ** [updateScore] *)

(** C8: [updateScore] writes one entry.  The row of every evaluator other
    than the current one is the row it was, every other subject of the
    current evaluator keeps its score, the given subject gets the new score,
    and label, selected evaluator and toast stay as they are. *)
Theorem updateScore_frame (st : State) (subjectName : string) (newScore : Z) :
  let st' := updateScore st subjectName newScore in
  let row_of s := row_or_empty (obj_get (allEvaluations s) (currentScorer st)) in
  (forall evaluator,
      evaluator <> currentScorer st ->
      obj_get (allEvaluations st') evaluator = obj_get (allEvaluations st) evaluator) /\
  (forall subject,
      subject <> subjectName ->
      obj_get (row_of st') subject = obj_get (row_of st) subject) /\
  obj_get (row_of st') subjectName = Some newScore /\
  axisLabel st' = axisLabel st /\
  currentScorer st' = currentScorer st /\
  toast st' = toast st.
Proof.
  cbv zeta. unfold updateScore, updateScoreMatrix. simpl.
  rewrite obj_get_set_same. simpl.
  repeat split.
  - intros evaluator Hne. apply obj_get_set_other. congruence.
  - intros subject Hne. apply obj_get_set_other. congruence.
  - apply obj_get_set_same.
Qed.

(** ** Start-up *)

(** C7: an absent, empty or unparsable stored value, a stored [null] and a
    stored value without the two fields all lead to the built-in matrix and
    the default label; each field falls back on its own when it is the one
    missing, a present field is taken over, and no toast is raised. *)
Theorem startup_fallback :
  initState absent = defaultState /\
  initState empty_text = defaultState /\
  (forall msg, initState (text (SyntaxError msg)) = defaultState) /\
  (forall msg, initState (text (ParsedNull msg)) = defaultState) /\
  initState (text (ParsedObject None None)) = defaultState /\
  (forall l, initAllEvaluations (text (ParsedObject None l)) = getInitialData) /\
  (forall m, initAxisLabel (text (ParsedObject m None)) = defaultAxisLabel) /\
  (forall m l, initAllEvaluations (text (ParsedObject (Some m) l)) = m) /\
  (forall saved, toast (initState saved) = None) /\
  (forall saved, toast (ui (startup saved true)) = None).
Proof.
  repeat split; reflexivity.
Qed.

(** ** Failures *)

Lemma handle_error_toast (st : State) (e : Event) (t : Toast) :
  toast (handle st e) = Some t -> type t = error -> toast st <> Some t ->
  import_failure e \/ image_failure e.
Proof.
  destruct e as [s v | s [v |] | s [v |] | l | n | f c | | ok |]; simpl;
    intros Ht Hty Hold; try congruence.
  - destruct f as [msg | msg | [m |] l]; simpl; auto.
    revert Ht. simpl.
    destruct (hasData (allEvaluations st) && negb c); [congruence |].
    destruct (truthy_label l); simpl; intros [= <-]; discriminate.
  - injection Ht as <-. discriminate.
  - destruct ok; simpl in Ht; injection Ht as <-; [discriminate |].
    right. reflexivity.
Qed.

(** C4 (as amended): an error toast is raised by a failed import, by a failed
    write to local storage or by a failed image export, and by nothing else.
    A failed import leaves matrix, label, selection and storage as they were;
    a failed write changes nothing but the toast of the state the handler
    produced, and nothing is written. *)
Theorem failures_are_notified (w : World) (writable : bool) (e : Event) :
  (error_raised w (step writable w e) ->
     import_failure e \/ write_failure writable (ui w) e \/ image_failure e) /\
  (import_failure e ->
     let w' := step writable w e in
     allEvaluations (ui w') = allEvaluations (ui w) /\
     axisLabel (ui w') = axisLabel (ui w) /\
     currentScorer (ui w') = currentScorer (ui w) /\
     localStorage w' = localStorage w /\
     exists t, toast (ui w') = Some t /\ type t = error) /\
  (write_failure writable (ui w) e ->
     let w' := step writable w e in
     ui w' = setToast (handle (ui w) e) (Some storageFull) /\
     localStorage w' = localStorage w).
Proof.
  split; [| split].
  - intros (t & Ht & Hty & Hold). unfold step in Ht.
    destruct (touches (ui w) e) eqn:Htouch; simpl in Ht.
    + destruct writable; simpl in Ht.
      * destruct (handle_error_toast _ _ _ Ht Hty Hold); auto.
      * right. left. split; reflexivity || assumption.
    + destruct (handle_error_toast _ _ _ Ht Hty Hold); auto.
  - destruct e as [s v | s [v |] | s [v |] | l | n | f c | | ok |];
      simpl; try tauto.
    destruct f as [msg | msg | [m |] l]; simpl; try tauto;
      intros _; unfold step; simpl; repeat split; eexists; split;
      reflexivity.
  - intros [Htouch ->]. unfold step. rewrite Htouch. simpl. split; reflexivity.
Qed.

(** C4 (as stated) fails: a failed image export raises an error toast although
    nothing was imported and the storage accepted every write. *)
Lemma image_failure_is_a_failure :
  error_raised freshWorld (step true freshWorld (SaveImageClick false)) /\
  ~ import_failure (SaveImageClick false) /\
  ~ write_failure true (ui freshWorld) (SaveImageClick false).
Proof.
  split; [| split].
  - eexists. split; [reflexivity |]. split; [reflexivity | discriminate].
  - simpl. tauto.
  - intros [_ H]. discriminate H.
Qed.

(** ** Invariants along a run *)

(** Membership in an explicit list, by walking down the list. *)
Ltac find_in_list := repeat first [left; reflexivity | right].

Lemma scores_in_range_initial : scores_in_range getInitialData.
Proof.
  assert (H : Forall (fun er => Forall (fun sv => 0 <= snd sv <= 100) (snd er))
                getInitialData).
  { vm_compute. repeat (constructor; [repeat (constructor; [split; discriminate |]) |]);
      constructor. }
  intros evaluator row subject v Hrow Hv.
  rewrite Forall_forall in H. specialize (H _ Hrow). simpl in H.
  rewrite Forall_forall in H. exact (H _ Hv).
Qed.

Lemma scores_in_range_update (m : Matrix) (scorer subject : string) (v : Z) :
  scores_in_range m -> 0 <= v <= 100 ->
  scores_in_range (updateScoreMatrix m scorer subject v).
Proof.
  intros Hm Hv evaluator row s x Hrow Hx. unfold updateScoreMatrix in Hrow.
  apply In_obj_set in Hrow. destruct Hrow as [[-> ->] | Hrow].
  - apply In_obj_set in Hx. destruct Hx as [[-> ->] | Hx]; [exact Hv |].
    destruct (obj_get m scorer) as [r |] eqn:E; simpl in Hx; [| contradiction].
    apply obj_get_In in E. exact (Hm _ _ _ _ E Hx).
  - exact (Hm _ _ _ _ Hrow Hx).
Qed.

Lemma scores_in_range_handle (st : State) (e : Event) :
  scores_in_range (allEvaluations st) ->
  ui_event st e -> import_carries scores_in_range e ->
  scores_in_range (allEvaluations (handle st e)).
Proof.
  intros Hst Hui Himp.
  destruct e as [s v | s [v |] | s [v |] | l | n | f c | | ok |]; simpl; auto.
  - apply scores_in_range_update; [assumption | apply Hui].
  - apply scores_in_range_update; [assumption | lia].
  - apply scores_in_range_update; [assumption | lia].
  - destruct f as [msg | msg | [m |] l]; simpl; auto.
    destruct (hasData (allEvaluations st) && negb c); [assumption |].
    destruct (truthy_label l); simpl; exact Himp.
  - destruct ok; assumption.
Qed.

Section RunInvariant.
Variable P : Matrix -> Prop.
Variable J : State -> Prop.
Hypothesis J_matrix : forall st, J st -> P (allEvaluations st).
Hypothesis J_toast : forall st t, J st -> J (setToast st t).
Hypothesis J_handle :
  forall st e, J st -> ui_event st e -> import_carries P e -> J (handle st e).

Let inv (w : World) : Prop := J (ui w) /\ on_snapshot P (localStorage w).

Lemma persist_invariant (writable : bool) (w : World) : inv w -> inv (persist writable w).
Proof.
  intros [Hq Hs]. destruct writable; split; simpl; auto.
Qed.

Lemma step_invariant (writable : bool) (w : World) (e : Event) :
  inv w -> ui_event (ui w) e -> import_carries P e -> inv (step writable w e).
Proof.
  intros [Hq Hs] Hui Himp. unfold step.
  assert (inv {| ui := handle (ui w) e; localStorage := localStorage w |})
    by (split; simpl; auto).
  destruct (touches (ui w) e); [apply persist_invariant |]; assumption.
Qed.

Lemma run_invariant (trace : list (bool * Event)) (w : World) :
  inv w -> valid_trace P w trace -> inv (run w trace).
Proof.
  revert w. induction trace as [| [writable e] rest IH]; intros w Hw Hv.
  - exact Hw.
  - destruct Hv as (Hui & Himp & Hrest). simpl. apply IH; [| exact Hrest].
    apply step_invariant; assumption.
Qed.
End RunInvariant.

(** C2 (as stated) fails: importing a file with a score of 500 puts that
    score into the persisted snapshot. *)
Lemma import_breaks_score_range :
  reachable (step true freshWorld (ImportFile outOfRangeFile true)) /\
  localStorage (step true freshWorld (ImportFile outOfRangeFile true))
  = text (JSON_roundtrip [("지운", [("대성", 500)])] defaultAxisLabel) /\
  ~ scores_in_range [("지운", [("대성", 500)])].
Proof.
  split; [| split].
  - apply reach_step; [apply reach_start | exact I].
  - reflexivity.
  - intros H.
    specialize (H "지운" [("대성", 500)] "대성" 500 (or_introl eq_refl) (or_introl eq_refl)).
    lia.
Qed.

(** C2 (as amended): when the snapshot read at start-up and every imported
    file keep their scores within [0,100], so does every snapshot persisted
    along the run, whatever the sliders and the numeric inputs send. *)
Theorem persisted_scores_in_range
  (saved : Stored) (writable : bool) (trace : list (bool * Event)) :
  on_snapshot scores_in_range saved ->
  valid_trace scores_in_range (startup saved writable) trace ->
  let w := run (startup saved writable) trace in
  scores_in_range (allEvaluations (ui w)) /\
  on_snapshot scores_in_range (localStorage w).
Proof.
  intros Hsaved Hvalid.
  apply (run_invariant scores_in_range
           (fun st => scores_in_range (allEvaluations st))).
  - intros st H. exact H.
  - intros st t H. exact H.
  - intros st e. apply scores_in_range_handle.
  - unfold startup.
    apply (persist_invariant scores_in_range
             (fun st => scores_in_range (allEvaluations st))).
    + intros st H. exact H.
    + intros st t H. exact H.
    + split; [| exact Hsaved]. simpl.
      destruct saved as [| | [msg | msg | [m |] l]]; simpl;
        solve [apply scores_in_range_initial | exact Hsaved].
  - exact Hvalid.
Qed.

Lemma persisted_scores_in_range_witness :
  let trace := [(true, NumberChange "대성" (Some 250)); (true, SliderChange "준호" 7)] in
  let w := run (startup absent true) trace in
  scores_in_range (allEvaluations (ui w)) /\
  on_snapshot scores_in_range (localStorage w).
Proof.
  apply (persisted_scores_in_range absent true).
  - exact I.
  - vm_compute. repeat split; try discriminate; find_in_list.
Defined.

(** Every handler except a successful import keeps the evaluator keys,
    provided the selected evaluator has a row. *)
Lemma handle_keeps_keys (st : State) (e : Event) :
  In (currentScorer st) (keys (allEvaluations st)) ->
  (forall file confirmed, e <> ImportFile file confirmed) ->
  keys (allEvaluations (handle st e)) = keys (allEvaluations st).
Proof.
  intros Hcur Hnot.
  destruct e as [s v | s [v |] | s [v |] | l | n | f c | | ok |]; simpl; auto;
    try (apply keys_obj_set_present; exact Hcur).
  - exfalso. exact (Hnot f c eq_refl).
  - destruct ok; reflexivity.
Qed.

Lemma currentScorer_handle (st : State) (e : Event) :
  currentScorer (handle st e) = currentScorer st
  \/ exists who, e = SelectScorer who /\ currentScorer (handle st e) = who.
Proof.
  destruct e as [s v | s [v |] | s [v |] | l | n | f c | | ok |]; simpl; eauto.
  - destruct f as [msg | msg | [m |] l]; simpl; auto.
    destruct (hasData (allEvaluations st) && negb c); auto.
    destruct (truthy_label l); auto.
  - destruct ok; auto.
Qed.

(** C5 (as stated) fails: importing a file whose only evaluator is a stranger
    replaces the seventeen rows by that single row. *)
Lemma import_replaces_participants :
  reachable (step true freshWorld (ImportFile strangerFile true)) /\
  keys (allEvaluations (ui (step true freshWorld (ImportFile strangerFile true))))
  = ["손님"] /\
  ~ participants_fixed
      (allEvaluations (ui (step true freshWorld (ImportFile strangerFile true)))).
Proof.
  split; [| split].
  - apply reach_step; [apply reach_start | exact I].
  - reflexivity.
  - intros H. discriminate H.
Qed.

(** C5 (as amended): no handler other than a JSON import adds or removes an
    evaluator, so the evaluator keys are the seventeen participants after
    every run in which the snapshot read at start-up and the imported files
    have exactly those keys; an import installs the keys of its file. *)
Theorem participants_fixed_along_run
  (saved : Stored) (writable : bool) (trace : list (bool * Event)) :
  on_snapshot participants_fixed saved ->
  valid_trace participants_fixed (startup saved writable) trace ->
  let w := run (startup saved writable) trace in
  participants_fixed (allEvaluations (ui w)) /\
  on_snapshot participants_fixed (localStorage w).
Proof.
  intros Hsaved Hvalid.
  pose (J := fun st : State =>
               participants_fixed (allEvaluations st)
               /\ In (currentScorer st) participantsNames).
  assert (HJ : J (ui (run (startup saved writable) trace))
               /\ on_snapshot participants_fixed
                    (localStorage (run (startup saved writable) trace))).
  { apply (run_invariant participants_fixed J).
    - intros st [H _]. exact H.
    - intros st t H. exact H.
    - intros st e [Hk Hc] Hui Himp. split.
      + destruct e as [s v | s [v |] | s [v |] | l | n | f c | | ok |];
          try (unfold participants_fixed; rewrite handle_keeps_keys;
               [exact Hk | rewrite Hk; exact Hc | discriminate]).
        destruct f as [msg | msg | [m |] l]; simpl; auto.
        destruct (hasData (allEvaluations st) && negb c); [assumption |].
        destruct (truthy_label l); simpl; exact Himp.
      + destruct (currentScorer_handle st e) as [-> | (who & -> & ->)];
          [exact Hc | exact Hui].
    - unfold startup. apply (persist_invariant participants_fixed J).
      + intros st [H _]. exact H.
      + intros st t H. exact H.
      + split; [| exact Hsaved]. split; [| simpl; tauto].
        destruct saved as [| | [msg | msg | [m |] l]]; simpl;
          solve [reflexivity | exact Hsaved].
    - exact Hvalid. }
  destruct HJ as [[H _] Hs]. split; assumption.
Qed.

Lemma participants_fixed_along_run_witness :
  let trace := [(true, SelectScorer "하운"); (false, SliderChange "지운" 88);
                (true, AxisLabelChange "매력도")] in
  let w := run (startup absent true) trace in
  participants_fixed (allEvaluations (ui w)) /\
  on_snapshot participants_fixed (localStorage w).
Proof.
  apply (participants_fixed_along_run absent true).
  - exact I.
  - vm_compute. repeat split; try discriminate; find_in_list.
Defined.

(** ** Export and import *)

(** C3 (as stated) fails.  A state exported with an empty label and imported
    into a fresh session comes back with the default label; a state imported
    over existing data comes back only if the user agrees to overwrite. *)
Lemma export_import_not_restored :
  reachable unlabelledWorld /\ reachable freshWorld /\
  axisLabel (ui unlabelledWorld) = "" /\
  axisLabel
    (importFromJson (ui freshWorld)
       (exportFile (exportData (ui unlabelledWorld) "2026-01-01T00:00:00.000Z")) true)
  = defaultAxisLabel /\
  ~ restored (ui unlabelledWorld)
      (importFromJson (ui freshWorld)
         (exportFile (exportData (ui unlabelledWorld) "2026-01-01T00:00:00.000Z")) true) /\
  ~ restored (ui (step true freshWorld (SliderChange "대성" 1)))
      (importFromJson (ui freshWorld)
         (exportFile (exportData (ui (step true freshWorld (SliderChange "대성" 1)))
                        "2026-01-01T00:00:00.000Z")) false).
Proof.
  split; [| split; [| split; [| split; [| split]]]].
  - apply reach_step; [apply reach_start | exact I].
  - apply reach_start.
  - reflexivity.
  - reflexivity.
  - intros [_ H]. discriminate H.
  - intros [H _]. discriminate H.
Qed.

(** C3 (as amended): importing an exported file, into whatever state, brings
    back the exported matrix exactly, and the exported label when it is not
    empty, provided the user confirms the overwrite when asked (no question
    is asked when the current matrix holds no positive score). *)
Theorem export_import_restores
  (exported current : State) (now : string) (confirmed : bool) :
  hasData (allEvaluations current) = false \/ confirmed = true ->
  let after := importFromJson current (exportFile (exportData exported now)) confirmed in
  allEvaluations after = allEvaluations exported /\
  (axisLabel exported <> "" -> axisLabel after = axisLabel exported) /\
  currentScorer after = currentScorer current.
Proof.
  intros Hgo. simpl.
  assert (Hguard : hasData (allEvaluations current) && negb confirmed = false).
  { destruct Hgo as [-> | ->]; [reflexivity | apply andb_false_r]. }
  rewrite Hguard.
  destruct (String.eqb (axisLabel exported) "") eqn:E; simpl; repeat split; auto.
  apply String.eqb_eq in E. intros H. contradiction.
Qed.

Lemma export_import_restores_witness :
  let exported := ui (step true freshWorld (AxisLabelChange "매력도")) in
  let after :=
    importFromJson (ui freshWorld)
      (exportFile (exportData exported "2026-01-01T00:00:00.000Z")) true in
  allEvaluations after = allEvaluations exported /\
  (axisLabel exported <> "" -> axisLabel after = axisLabel exported) /\
  currentScorer after = currentScorer (ui freshWorld).
Proof.
  apply (export_import_restores
           (ui (step true freshWorld (AxisLabelChange "매력도"))) (ui freshWorld)
           "2026-01-01T00:00:00.000Z" true).
  right. reflexivity.
Defined.

(** ** Sorting *)

Section SortFacts.
Context {A : Type} (lessEq : A -> A -> bool).

Lemma insert_perm (a : A) (l : list A) : Permutation (a :: l) (insert lessEq a l).
Proof.
  induction l as [| b rest IH]; simpl; [reflexivity |].
  destruct (lessEq a b); [reflexivity |].
  etransitivity; [apply perm_swap |]. now apply perm_skip.
Qed.

Lemma Array_sort_perm (l : list A) : Permutation l (Array_sort lessEq l).
Proof.
  induction l as [| a rest IH]; simpl; [constructor |].
  etransitivity; [apply perm_skip, IH | apply insert_perm].
Qed.

Lemma Array_sort_In (x : A) (l : list A) : In x (Array_sort lessEq l) <-> In x l.
Proof.
  split; apply Permutation_in;
    [symmetry |]; apply Array_sort_perm.
Qed.

(** With a comparator that relates any two elements one way or the other,
    adjacent elements of the result are in order. *)
Hypothesis lessEq_total : forall a b, lessEq a b = true \/ lessEq b a = true.

Lemma insert_sorted (a : A) (l : list A) :
  Sorted (fun x y => lessEq x y = true) l ->
  Sorted (fun x y => lessEq x y = true) (insert lessEq a l).
Proof.
  induction l as [| b rest IH]; simpl; intros Hs.
  - repeat constructor.
  - destruct (lessEq a b) eqn:E.
    + constructor; [exact Hs |]. constructor. exact E.
    + inversion Hs as [| ? ? Hrest Hhd]; subst.
      constructor; [apply IH; exact Hrest |].
      destruct rest as [| c rest']; simpl.
      * constructor. destruct (lessEq_total a b); congruence.
      * destruct (lessEq a c); constructor.
        -- destruct (lessEq_total a b); congruence.
        -- inversion Hhd; assumption.
Qed.

Lemma Array_sort_sorted (l : list A) :
  Sorted (fun x y => lessEq x y = true) (Array_sort lessEq l).
Proof.
  induction l as [| a rest IH]; simpl; [constructor |].
  apply insert_sorted, IH.
Qed.
End SortFacts.

(** ** Totals and counts *)

Lemma sum_from (l : list Z) (a : Z) : fold_left Z.add l a = a + sum l.
Proof.
  unfold sum. revert a. induction l as [| x rest IH]; intros a; simpl; [lia |].
  rewrite IH, (IH x). lia.
Qed.

Lemma sum_cons (x : Z) (l : list Z) : sum (x :: l) = x + sum l.
Proof. unfold sum at 1. simpl. apply sum_from. Qed.

Lemma sum_app (l1 l2 : list Z) : sum (l1 ++ l2) = sum l1 + sum l2.
Proof.
  induction l1 as [| x rest IH]; simpl; [reflexivity |].
  rewrite !sum_cons, IH. lia.
Qed.

Lemma given_app (s : string) (l1 l2 : list (string * Z)) :
  given s (l1 ++ l2) = given s l1 ++ given s l2.
Proof. unfold given. now rewrite filter_app, map_app. Qed.

Section ObjKeys.
Context {V : Type}.
Implicit Types (o : list (string * V)) (k : string) (v : V).

Lemma keys_obj_set o k v :
  keys (obj_set o k v) = keys o \/
  (~ In k (keys o) /\ keys (obj_set o k v) = keys o ++ [k]).
Proof.
  induction o as [| [k0 v0] rest IH]; simpl.
  - right. split; [tauto | reflexivity].
  - destruct (String.eqb k0 k) eqn:E; simpl; [now left |].
    destruct IH as [-> | [Hn ->]]; [now left |].
    right. split; [| reflexivity].
    intros [-> | H]; [| contradiction].
    rewrite String.eqb_refl in E. discriminate.
Qed.

Lemma NoDup_keys_obj_set o k v : NoDup (keys o) -> NoDup (keys (obj_set o k v)).
Proof.
  intros Hnd. destruct (keys_obj_set o k v) as [-> | [Hn ->]]; [exact Hnd |].
  apply NoDup_app; [exact Hnd | repeat constructor; simpl; tauto |].
  intros x Hx [<- | []]. contradiction.
Qed.

Lemma obj_get_NoDup o k v : NoDup (keys o) -> In (k, v) o -> obj_get o k = Some v.
Proof.
  induction o as [| [k0 v0] rest IH]; simpl; [tauto |].
  intros Hnd [[= -> ->] | Hin].
  - now rewrite String.eqb_refl.
  - inversion Hnd as [| ? ? Hnotin Hrest]; subst.
    destruct (String.eqb k0 k) eqn:E; [| auto].
    apply String.eqb_eq in E. subst k0. exfalso. apply Hnotin.
    change k with (fst (k, v)). apply in_map. exact Hin.
Qed.
End ObjKeys.

Lemma num_or_zero (x : option Z) :
  num_or x 0 = match x with Some v => v | None => 0 end.
Proof.
  destruct x as [v |]; simpl; [| reflexivity].
  destruct (Z.eqb_spec v 0); congruence.
Qed.

Lemma plain_not_proto (s : string) :
  inherited s = false -> String.eqb s "__proto__" = false.
Proof.
  intros Hs. destruct (String.eqb_spec s "__proto__") as [-> | Hne];
    [discriminate Hs | reflexivity].
Qed.

(** Under a name that is not inherited, [add_total] adds to the number held
    so far; under any other name it leaves that entry alone. *)
Lemma add_total_same (o : list (string * JsValue)) (s : string) (x : Z) :
  inherited s = false ->
  obj_get o s = None \/ (exists v, obj_get o s = Some (JNumber v)) ->
  obj_get (add_total o (s, x)) s = Some (JNumber (held (obj_get o s) + x)).
Proof.
  intros Hs Ho. unfold add_total, acc_set, acc_get. simpl.
  rewrite (plain_not_proto s Hs), obj_get_set_same, Hs.
  destruct Ho as [-> | [v ->]]; [reflexivity |].
  cbn [or_zero_plus held]. rewrite (num_or_zero (Some v)). reflexivity.
Qed.

Lemma add_total_other (o : list (string * JsValue)) (k s : string) (x : Z) :
  k <> s -> obj_get (add_total o (k, x)) s = obj_get o s.
Proof.
  intros Hne. unfold add_total, acc_set. simpl.
  destruct (String.eqb k "__proto__"); [reflexivity |].
  apply obj_get_set_other. exact Hne.
Qed.

(** A name that is not inherited holds what it held before plus everything
    the entries added under it. *)
Lemma obj_get_add_total (es : list (string * Z)) (o : list (string * JsValue))
  (s : string) :
  inherited s = false ->
  obj_get o s = None \/ (exists v, obj_get o s = Some (JNumber v)) ->
  obj_get (fold_left add_total es o) s =
  match given s es with
  | [] => obj_get o s
  | l => Some (JNumber (held (obj_get o s) + sum l))
  end.
Proof.
  intros Hs. revert o. induction es as [| [k x] rest IH]; intros o Ho;
    [reflexivity |].
  simpl fold_left.
  assert (G : given s ((k, x) :: rest)
              = if String.eqb k s then x :: given s rest else given s rest).
  { unfold given. simpl. now destruct (String.eqb k s). }
  rewrite G. destruct (String.eqb_spec k s) as [-> | Hne].
  - assert (A := add_total_same o s x Hs Ho).
    rewrite IH by (right; eexists; exact A). rewrite A. simpl held.
    destruct (given s rest) as [| y l].
    + reflexivity.
    + rewrite (sum_cons x (y :: l)). do 2 f_equal. lia.
  - assert (B := add_total_other o k s x Hne).
    rewrite IH by (rewrite B; exact Ho). rewrite B. reflexivity.
Qed.

Lemma NoDup_keys_add_total (es : list (string * Z)) (o : list (string * JsValue)) :
  NoDup (keys o) -> NoDup (keys (fold_left add_total es o)).
Proof.
  revert o. induction es as [| e rest IH]; intros o Hnd; [exact Hnd |].
  simpl. apply IH. unfold add_total, acc_set.
  destruct (String.eqb (fst e) "__proto__"); [exact Hnd |].
  apply NoDup_keys_obj_set. exact Hnd.
Qed.

(** The accumulators own no name that no entry brought. *)
Lemma keys_add_total (es : list (string * Z)) (o : list (string * JsValue)) (s : string) :
  In s (keys (fold_left add_total es o)) -> In s (keys o) \/ In s (map fst es).
Proof.
  revert o. induction es as [| e rest IH]; intros o Hin; [now left |].
  simpl in Hin. apply IH in Hin. destruct Hin as [Hin | Hin]; [| right; now right].
  unfold add_total, acc_set in Hin.
  destruct (String.eqb (fst e) "__proto__"); [now left |].
  destruct (keys_obj_set o (fst e) (or_zero_plus (acc_get o (fst e)) (snd e)))
    as [Heq | [_ Heq]]; rewrite Heq in Hin; [now left |].
  apply in_app_or in Hin. destruct Hin as [Hin | [<- | []]];
    [now left | right; now left].
Qed.

Lemma tally_entry_fold (h : bool) (evals : Scores)
  (totals counts : list (string * JsValue)) :
  fold_left (tally_entry h) evals (totals, counts) =
  (fold_left add_total evals totals,
   if h then fold_left add_total (map (fun e => (fst e, 1)) evals) counts else counts).
Proof.
  revert totals counts.
  induction evals as [| [k x] rest IH]; intros totals counts; simpl.
  - now destruct h.
  - rewrite IH. destruct h; reflexivity.
Qed.

Lemma tally_rows (rows : list Scores) (totals counts : list (string * JsValue)) :
  fold_left tally_row rows (totals, counts) =
  (fold_left add_total (List.concat rows) totals,
   fold_left add_total (count_entries rows) counts).
Proof.
  revert totals counts.
  induction rows as [| evals rest IH]; intros totals counts; [reflexivity |].
  simpl. unfold tally_row at 2. rewrite tally_entry_fold, IH.
  rewrite !fold_left_app. unfold nonEmpty.
  now destruct (0 <? sum (values evals)).
Qed.

Lemma given_concat (s : string) (rows : list Scores) :
  given s (List.concat rows) = flat_map (given s) rows.
Proof.
  induction rows as [| evals rest IH]; [reflexivity |].
  simpl. now rewrite given_app, IH.
Qed.

Lemma given_ones (s : string) (evals : Scores) :
  given s (map (fun e => (fst e, 1)) evals) = map (fun _ => 1) (given s evals).
Proof.
  unfold given. induction evals as [| [k x] rest IH]; [reflexivity |].
  simpl. destruct (String.eqb k s); simpl; now rewrite IH.
Qed.

Lemma given_count_entries (s : string) (rows : list Scores) :
  given s (count_entries rows) =
  map (fun _ => 1)
      (flat_map (fun evals => if nonEmpty evals then given s evals else []) rows).
Proof.
  induction rows as [| evals rest IH]; [reflexivity |].
  simpl. rewrite given_app, map_app, IH. f_equal.
  destruct (nonEmpty evals); [apply given_ones | reflexivity].
Qed.

Lemma sum_ones {A : Type} (l : list A) :
  sum (map (fun _ => 1) l) = Z.of_nat (List.length l).
Proof.
  induction l as [| x rest IH]; [reflexivity |].
  simpl map. rewrite sum_cons, IH. simpl List.length. lia.
Qed.

(** What [totals] and [counts] hold, when the loops are over, under a name
    that is not inherited. *)
Lemma tally_totals (m : Matrix) (s : string) :
  inherited s = false ->
  obj_get (fst (tally m)) s =
  match all_scores m s with
  | [] => None
  | l => Some (JNumber (sum l))
  end.
Proof.
  intros Hs. unfold tally. rewrite tally_rows. simpl fst.
  rewrite obj_get_add_total by (exact Hs || now left).
  rewrite given_concat. fold (all_scores m s).
  destruct (all_scores m s); reflexivity.
Qed.

Lemma tally_counts (m : Matrix) (s : string) :
  inherited s = false ->
  obj_get (snd (tally m)) s =
  match counted_scores m s with
  | [] => None
  | l => Some (JNumber (Z.of_nat (List.length l)))
  end.
Proof.
  intros Hs. unfold tally. rewrite tally_rows. simpl snd.
  rewrite obj_get_add_total by (exact Hs || now left).
  rewrite given_count_entries. fold (counted_scores m s).
  destruct (counted_scores m s) as [| x l]; [reflexivity |].
  cbn [map]. rewrite sum_cons, sum_ones. cbn [obj_get held List.length].
  f_equal. f_equal. lia.
Qed.

Lemma tally_totals_NoDup (m : Matrix) : NoDup (keys (fst (tally m))).
Proof.
  unfold tally. rewrite tally_rows. simpl fst.
  apply NoDup_keys_add_total. constructor.
Qed.

Lemma denominator_tally (m : Matrix) (s : string) :
  inherited s = false ->
  denominator (snd (tally m)) s = Some (divisor_of m s).
Proof.
  intros Hs. unfold denominator, acc_get, divisor_of.
  rewrite tally_counts by exact Hs. rewrite Hs.
  destruct (counted_scores m s) as [| x l]; reflexivity.
Qed.

(** The entry of the leaderboard for a subject whose name is not inherited:
    there is one when the subject occurs in some submission, and it holds
    the rounded quotient of its total by its divisor. *)
Lemma averageScores_entry (m : Matrix) (s : string) (d : option Z) :
  inherited s = false ->
  In (s, d) (averageScores m) <->
  all_scores m s <> [] /\
  d = Some (Math_round
              (Qdiv (inject_Z (sum (all_scores m s))) (inject_Z (divisor_of m s)))).
Proof.
  intros Hs. unfold averageScores.
  assert (Ht := tally_totals m s Hs). assert (Hnd := tally_totals_NoDup m).
  assert (Hden := denominator_tally m s Hs).
  destruct (tally m) as [totals counts]. simpl in Ht, Hnd, Hden.
  rewrite Array_sort_In, in_map_iff. split.
  - intros ([k total] & Heq & Hin). simpl in Heq. injection Heq as -> <-.
    apply obj_get_NoDup in Hin; [| exact Hnd]. rewrite Hin in Ht.
    destruct (all_scores m s); [discriminate |].
    injection Ht as ->. rewrite Hden. split; [discriminate | reflexivity].
  - intros [Hne ->].
    destruct (all_scores m s) as [| x l] eqn:El; [contradiction |].
    exists (s, JNumber (sum (x :: l))). split.
    + simpl. rewrite Hden. reflexivity.
    + apply obj_get_In. exact Ht.
Qed.

Lemma averageScores_NoDup (m : Matrix) : NoDup (keys (averageScores m)).
Proof.
  unfold averageScores. destruct (tally m) as [totals counts] eqn:E.
  assert (Hnd := tally_totals_NoDup m). rewrite E in Hnd. simpl in Hnd.
  unfold keys.
  eapply Permutation_NoDup; [apply Permutation_map, Array_sort_perm |].
  rewrite map_map. simpl. exact Hnd.
Qed.

(** ** The leaderboard *)


Lemma Math_round_integer (z : Z) : Math_round (Qdiv (inject_Z z) (inject_Z 1)) = z.
Proof.
  unfold Math_round, Qdiv, Qmult, Qinv, Qplus, Qfloor, inject_Z. simpl.
  symmetry. apply (Z.div_unique _ _ _ 1); lia.
Qed.

Lemma sum_nonneg_zero (l : list Z) :
  (forall x, In x l -> 0 <= x) -> sum l <= 0 -> forall x, In x l -> x = 0.
Proof.
  induction l as [| y rest IH]; intros Hpos Hsum x Hx; [contradiction |].
  rewrite sum_cons in Hsum.
  assert (0 <= y) by (apply Hpos; now left).
  assert (0 <= sum rest).
  { clear -Hpos. induction rest as [| z r IHr]; [unfold sum; simpl; lia |].
    rewrite sum_cons.
    assert (0 <= z) by (apply Hpos; right; now left).
    assert (0 <= sum r); [| lia].
    apply IHr. intros w [<- | Hw]; apply Hpos; [now left | right; now right]. }
  destruct Hx as [<- | Hx]; [lia |].
  apply IH; [intros w Hw; apply Hpos; now right | lia | exact Hx].
Qed.

Lemma In_given (s : string) (evals : Scores) (x : Z) :
  In x (given s evals) -> In (s, x) evals.
Proof.
  unfold given. rewrite in_map_iff. intros ([k v] & <- & Hin).
  apply filter_In in Hin. destruct Hin as [Hin E]. simpl in E.
  apply String.eqb_eq in E. now subst.
Qed.

Lemma sum_zero (l : list Z) : (forall x, In x l -> x = 0) -> sum l = 0.
Proof.
  induction l as [| y rest IH]; intros H; [reflexivity |].
  rewrite sum_cons, IH, (H y); [reflexivity | now left |].
  intros x Hx. apply H. now right.
Qed.

(** A submission of non-negative scores that is not non-empty gives 0 to
    everybody. *)
Lemma empty_submission_gives_zero (s : string) (evals : Scores) :
  (forall subject v, In (subject, v) evals -> 0 <= v) ->
  nonEmpty evals = false -> sum (given s evals) = 0.
Proof.
  intros Hpos Hempty. apply sum_zero. intros x Hx.
  apply In_given in Hx.
  apply (sum_nonneg_zero (values evals)).
  - intros y Hy. apply in_map_iff in Hy. destruct Hy as ([k v] & <- & Hin).
    exact (Hpos _ _ Hin).
  - unfold nonEmpty in Hempty. apply Z.ltb_ge in Hempty. exact Hempty.
  - change x with (snd (s, x)). apply in_map. exact Hx.
Qed.

Lemma total_counts_nonempty_only (m : Matrix) (s : string) :
  nonnegative m -> sum (all_scores m s) = sum (counted_scores m s).
Proof.
  unfold nonnegative, all_scores, counted_scores.
  induction m as [| [evaluator evals] rest IH]; intros Hpos; [reflexivity |].
  simpl. rewrite !sum_app, IH.
  - f_equal. destruct (nonEmpty evals) eqn:E; [reflexivity |].
    rewrite (empty_submission_gives_zero s evals); [reflexivity | | exact E].
    intros subject v Hin. apply (Hpos evaluator evals subject v); [now left | exact Hin].
  - intros e r subject v Hr. apply (Hpos e r subject v). now right.
Qed.




(** The panel shows entries of [averageScores] only. *)
Lemma leaderboard_entries (m : Matrix) (shown : list (string * option Z))
  (e : string * option Z) :
  leaderboard m = Some shown -> In e shown -> In e (averageScores m).
Proof.
  unfold leaderboard.
  destruct (existsb (fun b => b) (values (hasEvaluated m))); [| discriminate].
  intros Heq Hin. assert (shown = firstn 5 (averageScores m)) by congruence.
  subst shown.
  rewrite <- (firstn_skipn 5 (averageScores m)). apply in_or_app. now left.
Qed.

(** C10 fails on the code for a subject called like a member of
    [Object.prototype].  In the all-zero matrix whose only subject is
    "constructor" no evaluator has a non-empty submission, yet
    [totals["constructor"]] starts from the inherited function and becomes a
    string, the divisor [counts["constructor"] || 1] is that function and not
    1, and the score shown is [NaN]. *)
Theorem inherited_name_shows_NaN :
  reachable (step true freshWorld (ImportFile constructorFile true)) /\
  allEvaluations (ui (step true freshWorld (ImportFile constructorFile true)))
  = constructorMatrix /\
  all_zero constructorMatrix /\
  counted_scores constructorMatrix "constructor" = [] /\
  sum (all_scores constructorMatrix "constructor") = 0 /\
  tally constructorMatrix = ([("constructor", JString)], []) /\
  denominator (snd (tally constructorMatrix)) "constructor" = None /\
  averageScores constructorMatrix = [("constructor", None)].
Proof.
  split; [apply reach_step; [apply reach_start | exact I] |].
  split; [reflexivity |]. split; [| repeat split].
  intros evaluator row subject v [[= <- <-] | []] [[= <- <-] | []]. reflexivity.
Qed.

(** What the fallback achieves where the name of the subject is not
    inherited: the divisor is at least 1, and for a subject that no evaluator
    with a non-empty submission has scored it is 1 and the entry shows the
    raw total, which is 0 when no score is negative. *)
Lemma averageScores_divisor_fallback (m : Matrix) (subject : string) :
  inherited subject = false ->
  (exists d, denominator (snd (tally m)) subject = Some d /\ 1 <= d) /\
  (forall shown,
      In (subject, shown) (averageScores m) ->
      counted_scores m subject = [] ->
      denominator (snd (tally m)) subject = Some 1 /\
      shown = Some (sum (all_scores m subject)) /\
      (nonnegative m -> shown = Some 0)).
Proof.
  intros Hplain. rewrite denominator_tally by exact Hplain. split.
  - eexists. split; [reflexivity |]. unfold divisor_of.
    destruct (counted_scores m subject); simpl List.length; lia.
  - intros shown Hin Hnone.
    apply averageScores_entry in Hin; [| exact Hplain]. destruct Hin as [_ Hd].
    unfold divisor_of in *. rewrite Hnone in *. rewrite Math_round_integer in Hd.
    repeat split; [exact Hd |].
    intros Hpos. rewrite Hd, total_counts_nonempty_only, Hnone by exact Hpos.
    reflexivity.
Qed.

(** ** Label layout *)

Lemma Sorted_impl {A : Type} (R R' : A -> A -> Prop) (l : list A) :
  (forall a b, R a b -> R' a b) -> Sorted R l -> Sorted R' l.
Proof.
  intros Himp. induction 1 as [| a l Hs IH Hhd]; constructor; [exact IH |].
  destruct Hhd; constructor. auto.
Qed.

Lemma last_opt_snoc {A : Type} (l : list A) (x : A) : last_opt (l ++ [x]) = Some x.
Proof. unfold last_opt. now rewrite rev_unit. Qed.

Lemma last_opt_cons {A : Type} (a : A) (l : list A) :
  l <> [] -> last_opt (a :: l) = last_opt l.
Proof.
  intros Hne. unfold last_opt. simpl.
  destruct (rev l) as [| y r] eqn:E; [| reflexivity].
  apply (f_equal (@rev A)) in E. rewrite rev_involutive in E. contradiction.
Qed.

Lemma last_opt_None {A : Type} (l : list A) : last_opt l = None -> l = [].
Proof.
  destruct l as [| a l] using rev_ind; [reflexivity |].
  rewrite last_opt_snoc. discriminate.
Qed.

Lemma last_opt_Some {A : Type} (l : list A) (x : A) : last_opt l = Some x -> l <> [].
Proof. intros H ->. discriminate H. Qed.

Lemma Sorted_snoc {A : Type} (R : A -> A -> Prop) (l : list A) (x : A) :
  Sorted R l -> (forall a, last_opt l = Some a -> R a x) -> Sorted R (l ++ [x]).
Proof.
  induction l as [| a l' IH]; intros Hs Hlast; simpl.
  - repeat constructor.
  - inversion Hs as [| ? ? Hs' Hhd]; subst. destruct l' as [| b l''].
    + simpl. repeat constructor. apply Hlast. reflexivity.
    + constructor.
      * apply IH; [exact Hs' |]. intros c Hc. apply Hlast.
        rewrite last_opt_cons; [exact Hc | discriminate].
      * simpl. constructor. inversion Hhd; assumption.
Qed.

Lemma group_step_cases (groups : list (list Person)) (c : list Person) (p : Person) :
  group_step (groups, c) p =
  match last_opt c with
  | Some prev =>
      if Z.abs (score p - score prev) <=? SCORE_BAND then (groups, c ++ [p])
      else (groups ++ [c], [p])
  | None => (groups, [p])
  end.
Proof.
  unfold group_step. destruct (last_opt c) as [prev |] eqn:E.
  - destruct (Z.abs (score p - score prev) <=? SCORE_BAND); [reflexivity |].
    destruct c; [discriminate E | reflexivity].
  - apply last_opt_None in E. now subst c.
Qed.

(** The loop and its recursive reading produce the same groups. *)
Lemma group_loop_runs (l : list Person) (groups : list (list Person)) (c : list Person) :
  (let '(gs, cur) := fold_left group_step l (groups, c) in
   match cur with
   | [] => gs
   | _ :: _ => gs ++ [cur]
   end) = groups ++ runs_from c l.
Proof.
  revert groups c. induction l as [| p rest IH]; intros groups c.
  - simpl. destruct c; [now rewrite app_nil_r | reflexivity].
  - cbn [fold_left runs_from]. rewrite group_step_cases.
    destruct (last_opt c) as [prev |] eqn:E; [| apply IH].
    destruct (Z.abs (score p - score prev) <=? SCORE_BAND); [apply IH |].
    rewrite IH, <- app_assoc. reflexivity.
Qed.

Lemma groupByBand_runs (l : list Person) : groupByBand l = runs_from [] l.
Proof. unfold groupByBand. apply (group_loop_runs l [] []). Qed.

Lemma runs_from_concat (l c : list Person) : List.concat (runs_from c l) = c ++ l.
Proof.
  revert c. induction l as [| p rest IH]; intros c; simpl.
  - destruct c; simpl; now rewrite ?app_nil_r.
  - destruct (last_opt c) as [prev |] eqn:E.
    + destruct (Z.abs (score p - score prev) <=? SCORE_BAND).
      * rewrite IH, <- app_assoc. reflexivity.
      * simpl. rewrite IH. reflexivity.
    + apply last_opt_None in E. subst c. rewrite IH. reflexivity.
Qed.

Lemma runs_from_runs (l c : list Person) :
  Sorted within_band c -> Forall is_run (runs_from c l).
Proof.
  revert c. induction l as [| p rest IH]; intros c Hc; simpl.
  - destruct c; constructor; [| constructor]. split; [discriminate | exact Hc].
  - destruct (last_opt c) as [prev |] eqn:E.
    + destruct (Z.leb_spec (Z.abs (score p - score prev)) SCORE_BAND) as [Hin | Hout].
      * apply IH. apply Sorted_snoc; [exact Hc |].
        intros a Ha. rewrite E in Ha. injection Ha as <-. exact Hin.
      * constructor.
        -- split; [exact (last_opt_Some _ _ E) | exact Hc].
        -- apply IH. repeat constructor.
    + apply IH. repeat constructor.
Qed.

Lemma runs_from_head (l c : list Person) :
  c <> [] -> exists ext more, runs_from c l = (c ++ ext) :: more.
Proof.
  revert c. induction l as [| p rest IH]; intros c Hc; simpl.
  - destruct c; [contradiction |]. exists [], []. now rewrite app_nil_r.
  - destruct (last_opt c) as [prev |] eqn:E.
    + destruct (Z.abs (score p - score prev) <=? SCORE_BAND).
      * destruct (IH (c ++ [p])) as (ext & more & ->).
        { destruct c; discriminate. }
        exists (p :: ext), more. now rewrite <- app_assoc.
      * exists [], (runs_from [p] rest). now rewrite app_nil_r.
    + apply last_opt_None in E. contradiction.
Qed.

Lemma runs_from_separated (l c : list Person) : separated (runs_from c l).
Proof.
  revert c. induction l as [| p rest IH]; intros c; simpl.
  - destruct c; simpl; exact I.
  - destruct (last_opt c) as [prev |] eqn:E; [| apply IH].
    destruct (Z.leb_spec (Z.abs (score p - score prev)) SCORE_BAND) as [Hin | Hout];
      [apply IH |].
    assert (Hsep := IH [p]).
    destruct (runs_from_head rest [p]) as (ext & more & Heq); [discriminate |].
    rewrite Heq in *. simpl. split; [| exact Hsep].
    intros a b Ha [= <-]. rewrite E in Ha. injection Ha as <-.
    unfold within_band. lia.
Qed.

Lemma fold_score_sum (g : list Person) (a : Z) :
  fold_left (fun s p => s + score p) g a = fold_left Z.add (map score g) a.
Proof. revert a. induction g as [| p rest IH]; intros a; simpl; auto. Qed.

Lemma centerScore_mean (g : list Person) : centerScore g = mean (map score g).
Proof.
  destruct g as [| p rest]; [reflexivity |].
  unfold centerScore, mean, sum. rewrite fold_score_sum, <- (length_map score).
  reflexivity.
Qed.

Lemma item_members_toItem (g : list Person) : item_members (toItem g) = g.
Proof. destruct g as [| p [| q r]]; reflexivity. Qed.

Lemma rendered_toItem (g : list Person) : g <> [] -> rendered (toItem g).
Proof.
  intros Hne. split.
  - rewrite item_members_toItem, <- centerScore_mean.
    destruct g as [| p [| q r]]; reflexivity.
  - destruct g as [| p [| q r]]; simpl; [contradiction | exact I | lia].
Qed.

Section MapIndexed.
Context {A B : Type} (f : A -> nat -> B).

Lemma mapi_from_map {C : Type} (h : B -> C) (h0 : A -> C) :
  (forall x i, h (f x i) = h0 x) ->
  forall l idx, map h (mapi_from f idx l) = map h0 l.
Proof.
  intros Hf. induction l as [| x rest IH]; intros idx; simpl; [reflexivity |].
  now rewrite Hf, IH.
Qed.

Lemma mapi_from_Forall (P : A -> Prop) (P' : B -> Prop) :
  (forall x i, P x -> P' (f x i)) ->
  forall l idx, Forall P l -> Forall P' (mapi_from f idx l).
Proof.
  intros Hf. induction l as [| x rest IH]; intros idx Hl; simpl; constructor;
    inversion Hl; subst; auto.
Qed.
End MapIndexed.

Lemma applyOffsets_members (y : list (nat * Z)) (items : list Item) :
  map item_members (applyOffsets y items) = map item_members items.
Proof.
  apply mapi_from_map. intros [p x o | x ms] i; simpl;
    [destruct (map_get y i) |]; reflexivity.
Qed.

Lemma applyOffsets_rendered (y : list (nat * Z)) (items : list Item) :
  Forall rendered items -> Forall rendered (applyOffsets y items).
Proof.
  apply mapi_from_Forall. intros [p x o | x ms] i H; simpl;
    [destruct (map_get y i) |]; exact H.
Qed.

Lemma codePointCompare_total (a b : string) :
  codePointCompare a b <= 0 \/ codePointCompare b a <= 0.
Proof.
  unfold codePointCompare. rewrite (String.compare_antisym a b).
  destruct (String.compare b a); simpl; lia.
Qed.

Section Layout.
Variable localeCompare : string -> string -> Z.
Hypothesis localeCompare_total :
  forall a b, localeCompare a b <= 0 \/ localeCompare b a <= 0.

Lemma byScoreThenName_total (a b : Person) :
  (byScoreThenName localeCompare a b <=? 0) = true
  \/ (byScoreThenName localeCompare b a <=? 0) = true.
Proof.
  unfold byScoreThenName. rewrite !Z.leb_le.
  destruct (Z.eqb_spec (score a - score b) 0), (Z.eqb_spec (score b - score a) 0);
    try lia.
  apply localeCompare_total.
Qed.

Lemma byScoreThenName_order (a b : Person) :
  (byScoreThenName localeCompare a b <=? 0) = true ->
  score_then_name localeCompare a b.
Proof.
  unfold byScoreThenName, score_then_name. rewrite Z.leb_le.
  destruct (Z.eqb_spec (score a - score b) 0); intros H; [right | left]; lia.
Qed.

(** The construction of the layout (what C6 says about it up to the
    staggering): it sorts the persons by ascending score, equal scores by
    name; cuts the sorted list into maximal runs whose neighbours are at
    most 12 points apart; renders every run as one item, a run of two or
    more as a cluster, placed at the mean of its members' scores clamped
    into [3,97]; puts every person into exactly one item; and returns the
    items by ascending position. *)
Theorem graphDisplayItems_layout (persons : list Person) :
  let sorted :=
    Array_sort (fun a b => byScoreThenName localeCompare a b <=? 0) persons in
  let groups := groupByBand sorted in
  let items := graphDisplayItems localeCompare persons in
  Permutation persons sorted /\
  Sorted (score_then_name localeCompare) sorted /\
  StronglySorted (fun a b => score a <= score b) sorted /\
  List.concat groups = sorted /\
  Forall is_run groups /\
  separated groups /\
  Permutation (map item_members items) groups /\
  Forall rendered items /\
  Permutation (flat_map item_members items) persons /\
  Sorted (fun a b => (centerX a <= centerX b)%Q) items.
Proof.
  intros sorted groups items.
  assert (Hperm : Permutation persons sorted) by apply Array_sort_perm.
  assert (Hsorted : Sorted (score_then_name localeCompare) sorted).
  { apply (Sorted_impl (fun a b => (byScoreThenName localeCompare a b <=? 0) = true)).
    - apply byScoreThenName_order.
    - apply Array_sort_sorted. apply byScoreThenName_total. }
  assert (Hconcat : List.concat groups = sorted).
  { unfold groups. rewrite groupByBand_runs. apply runs_from_concat. }
  assert (Hruns : Forall is_run groups).
  { unfold groups. rewrite groupByBand_runs. apply runs_from_runs. constructor. }
  assert (Hitems : Permutation (map item_members items) groups).
  { unfold items, graphDisplayItems. fold sorted. fold groups.
    etransitivity; [symmetry; apply Permutation_map, Array_sort_perm |].
    rewrite applyOffsets_members, map_map.
    rewrite (map_ext _ (fun g => g) item_members_toItem), map_id. reflexivity. }
  repeat split; try assumption.
  - apply Sorted_StronglySorted; [intros a b c; lia |].
    revert Hsorted. apply Sorted_impl. intros a b [H | [H _]]; lia.
  - unfold groups. rewrite groupByBand_runs. apply runs_from_separated.
  - unfold items, graphDisplayItems. fold sorted. fold groups.
    eapply Permutation_Forall; [apply Array_sort_perm |].
    apply applyOffsets_rendered. apply Forall_map.
    revert Hruns. apply Forall_impl. intros g [Hne _]. now apply rendered_toItem.
  - rewrite flat_map_concat_map.
    etransitivity; [| symmetry; exact Hperm]. rewrite <- Hconcat.
    clear -Hitems. induction Hitems; simpl.
    + reflexivity.
    + now apply Permutation_app_head.
    + rewrite !app_assoc. apply Permutation_app_tail, Permutation_app_comm.
    + etransitivity; eassumption.
  - unfold items, graphDisplayItems.
    eapply Sorted_impl; [| apply Array_sort_sorted].
    + intros a b H. apply Qle_bool_iff in H. lra.
    + intros a b. rewrite !Qle_bool_iff.
      destruct (Qlt_le_dec (centerX a) (centerX b)); [left | right]; lra.
Qed.
End Layout.

Lemma graphDisplayItems_layout_witness :
  let persons := currentScores getInitialData "지운" in
  let sorted :=
    Array_sort (fun a b => byScoreThenName codePointCompare a b <=? 0) persons in
  let groups := groupByBand sorted in
  let items := graphDisplayItems codePointCompare persons in
  Permutation persons sorted /\
  Sorted (score_then_name codePointCompare) sorted /\
  StronglySorted (fun a b => score a <= score b) sorted /\
  List.concat groups = sorted /\
  Forall is_run groups /\
  separated groups /\
  Permutation (map item_members items) groups /\
  Forall rendered items /\
  Permutation (flat_map item_members items) persons /\
  Sorted (fun a b => (centerX a <= centerX b)%Q) items.
Proof.
  exact (graphDisplayItems_layout codePointCompare codePointCompare_total
           (currentScores getInitialData "지운")).
Defined.

(** C6 fails on the code in its conclusion: the staggering does not keep
    neighbouring labels apart.  In the fresh application, after the sliders
    of 태현 and 승재 are moved to 17 and 43, the single items of 현우 (at 30)
    and 승재 (at 43) lie 13 apart, closer than the threshold of 18 within
    which single items are to alternate, and both are shifted by -26: each
    is second from the left among its own neighbours. *)
Theorem stagger_leaves_neighbours_level :
  reachable staggerSample /\
  let items :=
    graphDisplayItems codePointCompare
      (currentScores (allEvaluations (ui staggerSample))
                     (currentScorer (ui staggerSample))) in
  (exists h1 h2,
      In (single {| name := "현우"; score := 30; hue := h1 |} 30 (Some (-26))) items /\
      In (single {| name := "승재"; score := 43; hue := h2 |} 43 (Some (-26))) items) /\
  (Qabs (43 - 30) < STAGGER_THRESHOLD)%Q /\
  ~ alternating items.
Proof.
  assert (Hitems :
    In (single {| name := "현우"; score := 30;
                  hue := Qdiv (inject_Z (7 * 360)) 16 |} 30 (Some (-26)))
       (graphDisplayItems codePointCompare
          (currentScores (allEvaluations (ui staggerSample))
                         (currentScorer (ui staggerSample)))) /\
    In (single {| name := "승재"; score := 43;
                  hue := Qdiv (inject_Z (6 * 360)) 16 |} 43 (Some (-26)))
       (graphDisplayItems codePointCompare
          (currentScores (allEvaluations (ui staggerSample))
                         (currentScorer (ui staggerSample))))).
  { split; vm_compute; find_in_list. }
  split; [| split; [| split]].
  - unfold staggerSample.
    apply reach_step; [apply reach_step; [apply reach_start |] |];
      (split; [vm_compute; find_in_list | split; discriminate]).
  - eexists. eexists. exact Hitems.
  - reflexivity.
  - intros Halt. destruct Hitems as [H1 H2].
    apply (Halt _ _ _ _ _ _ H1 H2); [discriminate | reflexivity | reflexivity].
Qed.

(** * Further properties *)

(** ** Cells of the matrix *)

Section ObjSet.
Context {V : Type}.
Implicit Types (o : list (string * V)) (k : string) (v : V).

Lemma obj_set_set_same o k v1 v2 : obj_set (obj_set o k v1) k v2 = obj_set o k v2.
Proof.
  induction o as [| [k0 v0] rest IH]; simpl.
  - now rewrite String.eqb_refl.
  - destruct (String.eqb k0 k) eqn:E; simpl; rewrite E; [reflexivity |].
    now rewrite IH.
Qed.

Lemma obj_set_absent o k v : obj_get o k = None -> obj_set o k v = o ++ [(k, v)].
Proof.
  induction o as [| [k0 v0] rest IH]; simpl; [reflexivity |].
  destruct (String.eqb k0 k); [discriminate |]. intros H. now rewrite IH.
Qed.

Lemma obj_get_None_keys o k : obj_get o k = None -> ~ In k (keys o).
Proof.
  intros Hnone Hin. apply obj_get_keys in Hin. destruct Hin as [v Hv]. congruence.
Qed.
End ObjSet.

Lemma score_of_update (m : Matrix) (scorer subject : string) (v : Z)
  (evaluator other : string) :
  score_of (updateScoreMatrix m scorer subject v) evaluator other =
  if String.eqb evaluator scorer && String.eqb other subject then Some v
  else score_of m evaluator other.
Proof.
  unfold score_of, updateScoreMatrix.
  destruct (String.eqb_spec evaluator scorer) as [-> | Hne]; simpl.
  - rewrite obj_get_set_same. simpl.
    destruct (String.eqb_spec other subject) as [-> | Hne'].
    + apply obj_get_set_same.
    + apply obj_get_set_other. congruence.
  - rewrite obj_get_set_other by congruence. reflexivity.
Qed.

(** X1: writing the same cell twice is writing it once with the later
    score: the whole state, order of rows and entries included, is the one
    the second write alone produces. *)
Theorem updateScore_overwrite (st : State) (subject : string) (v1 v2 : Z) :
  updateScore (updateScore st subject v1) subject v2 = updateScore st subject v2.
Proof.
  unfold updateScore, updateScoreMatrix, setAllEvaluations. simpl.
  rewrite obj_get_set_same. simpl. now rewrite !obj_set_set_same.
Qed.

(** X2: writes to two different subjects commute: whichever comes first,
    every cell of the matrix reads the same afterwards. *)
Theorem updateScore_commute (st : State) (s1 s2 : string) (v1 v2 : Z) :
  s1 <> s2 ->
  forall evaluator subject,
    score_of (allEvaluations (updateScore (updateScore st s1 v1) s2 v2))
             evaluator subject
    = score_of (allEvaluations (updateScore (updateScore st s2 v2) s1 v1))
               evaluator subject.
Proof.
  intros Hne evaluator subject. unfold updateScore. simpl.
  rewrite !score_of_update.
  destruct (String.eqb evaluator (currentScorer st)); simpl; [| reflexivity].
  destruct (String.eqb_spec subject s1) as [H1 | H1],
           (String.eqb_spec subject s2) as [H2 | H2]; congruence.
Qed.

Lemma updateScore_commute_witness :
  score_of (allEvaluations
              (updateScore (updateScore defaultState "대성" 10) "준호" 20))
           "지운" "대성"
  = score_of (allEvaluations
                (updateScore (updateScore defaultState "준호" 20) "대성" 10))
             "지운" "대성".
Proof.
  apply (updateScore_commute defaultState "대성" "준호" 10 20). discriminate.
Defined.

Lemma mapi_from_length {A B : Type} (f : A -> nat -> B) (l : list A) (idx : nat) :
  List.length (mapi_from f idx l) = List.length l.
Proof.
  revert idx. induction l as [| x rest IH]; intros idx; simpl; auto.
Qed.

Lemma mapi_from_hue (l l' : list (string * Z)) (idx : nat) :
  List.length l = List.length l' ->
  map hue (mapi_from (fun entry i =>
                        {| name := fst entry; score := snd entry;
                           hue := Qdiv (inject_Z (Z.of_nat i * 360)) 16 |}) idx l)
  = map hue (mapi_from (fun entry i =>
                          {| name := fst entry; score := snd entry;
                             hue := Qdiv (inject_Z (Z.of_nat i * 360)) 16 |}) idx l').
Proof.
  revert l' idx. induction l as [| x rest IH]; intros [| x' rest'] idx Hlen;
    simpl in *; try discriminate; [reflexivity |].
  f_equal. apply IH. congruence.
Qed.

Lemma currentScores_names (m : Matrix) (scorer : string) :
  map name (currentScores m scorer) = keys (row_or_empty (obj_get m scorer)).
Proof. unfold currentScores, mapi. apply mapi_from_map. reflexivity. Qed.

Lemma currentScores_scores (m : Matrix) (scorer : string) :
  map score (currentScores m scorer) = values (row_or_empty (obj_get m scorer)).
Proof. unfold currentScores, mapi. apply mapi_from_map. reflexivity. Qed.

(** X3: moving a slider of the list never reorders or recolours the list,
    and adds no row: when the subject is one of the listed names, the names
    and the hues of the list and the evaluator keys of the matrix are the
    same after [updateScore], and the listed score of that subject is the
    new one. *)
Theorem updateScore_keeps_list (st : State) (subject : string) (v : Z) :
  In subject (map name (currentScores (allEvaluations st) (currentScorer st))) ->
  let st' := updateScore st subject v in
  let list_of s := currentScores (allEvaluations s) (currentScorer st) in
  map name (list_of st') = map name (list_of st) /\
  map hue (list_of st') = map hue (list_of st) /\
  keys (allEvaluations st') = keys (allEvaluations st) /\
  score_of (allEvaluations st') (currentScorer st) subject = Some v.
Proof.
  intros Hin. cbv zeta. rewrite currentScores_names in Hin.
  destruct (obj_get (allEvaluations st) (currentScorer st)) as [row |] eqn:Erow;
    [| contradiction].
  simpl in Hin.
  assert (Hget : obj_get (allEvaluations (updateScore st subject v)) (currentScorer st)
                 = Some (obj_set row subject v)).
  { unfold updateScore, updateScoreMatrix. simpl. rewrite Erow. simpl.
    apply obj_get_set_same. }
  split; [| split; [| split]].
  - rewrite !currentScores_names, Hget, Erow. simpl.
    apply keys_obj_set_present. exact Hin.
  - unfold currentScores, mapi. rewrite Hget, Erow. simpl.
    apply mapi_from_hue.
    rewrite <- (length_map fst (obj_set row subject v)), <- (length_map fst row).
    change (map fst (obj_set row subject v)) with (keys (obj_set row subject v)).
    rewrite keys_obj_set_present by exact Hin. reflexivity.
  - unfold updateScore, updateScoreMatrix. simpl.
    apply keys_obj_set_present.
    apply obj_get_In in Erow.
    change (currentScorer st) with (fst (currentScorer st, row)).
    apply in_map. exact Erow.
  - unfold updateScore. simpl. rewrite score_of_update, !String.eqb_refl.
    reflexivity.
Qed.

Lemma updateScore_keeps_list_witness :
  let st' := updateScore defaultState "병주" 55 in
  let list_of s := currentScores (allEvaluations s) (currentScorer defaultState) in
  map name (list_of st') = map name (list_of defaultState) /\
  map hue (list_of st') = map hue (list_of defaultState) /\
  keys (allEvaluations st') = keys (allEvaluations defaultState) /\
  score_of (allEvaluations st') (currentScorer defaultState) "병주" = Some 55.
Proof.
  apply (updateScore_keeps_list defaultState "병주" 55).
  vm_compute. find_in_list.
Defined.

(** X4: when the selected evaluator has no row, [updateScore] appends a
    row for that evaluator holding the one entry, after all existing rows,
    which it leaves as they are. *)
Theorem updateScore_creates_row (st : State) (subject : string) (v : Z) :
  obj_get (allEvaluations st) (currentScorer st) = None ->
  allEvaluations (updateScore st subject v)
  = allEvaluations st ++ [(currentScorer st, [(subject, v)])].
Proof.
  intros Hnone. unfold updateScore, updateScoreMatrix. simpl.
  rewrite Hnone. simpl. apply obj_set_absent. exact Hnone.
Qed.

Lemma updateScore_creates_row_witness :
  allEvaluations
    (updateScore (ui (step true freshWorld (ImportFile strangerFile true))) "대성" 5)
  = allEvaluations (ui (step true freshWorld (ImportFile strangerFile true)))
    ++ [("지운", [("대성", 5)])].
Proof.
  apply (updateScore_creates_row
           (ui (step true freshWorld (ImportFile strangerFile true))) "대성" 5).
  reflexivity.
Defined.

(** ** The numeric field *)

(** X5: the numeric field stores what was typed clamped into [0,100]: a value
    within the range as it is, a negative one as 0, one above 100 as 100;
    text that is not a number changes nothing while typing and becomes 0 when
    the field loses focus, and leaving the field with a number in it changes
    nothing. *)
Theorem number_field_clamps (st : State) (subject : string) (v : Z) :
  let stored :=
    score_of (allEvaluations (handle st (NumberChange subject (Some v))))
             (currentScorer st) subject in
  stored = Some (Z.min 100 (Z.max 0 v)) /\
  0 <= Z.min 100 (Z.max 0 v) <= 100 /\
  (0 <= v <= 100 -> stored = Some v) /\
  (v < 0 -> stored = Some 0) /\
  (100 < v -> stored = Some 100) /\
  handle st (NumberChange subject None) = st /\
  handle st (NumberBlur subject (Some v)) = st /\
  score_of (allEvaluations (handle st (NumberBlur subject None)))
           (currentScorer st) subject = Some 0.
Proof.
  cbv zeta. simpl. unfold updateScore. simpl.
  rewrite !score_of_update, !String.eqb_refl. simpl.
  repeat split; try lia; intros H; f_equal; lia.
Qed.

(** ** The import handler *)

Lemma hasData_false (m : Matrix) :
  (forall evaluator row subject v,
      In (evaluator, row) m -> In (subject, v) row -> v <= 0) ->
  hasData m = false.
Proof.
  intros Hle. unfold hasData.
  apply not_true_is_false. intros H.
  apply existsb_exists in H. destruct H as (s & _ & H).
  apply existsb_exists in H. destruct H as (v & Hv & Hpos).
  apply Z.ltb_lt in Hpos.
  destruct (obj_get m s) as [row |] eqn:E; simpl in Hv; [| contradiction].
  apply obj_get_In in E. apply in_map_iff in Hv.
  destruct Hv as ([k x] & <- & Hk). simpl in Hpos.
  specialize (Hle _ _ _ _ E Hk). lia.
Qed.

(** X6: a declined overwrite is a no-op.  When the current matrix holds a
    positive score and the user answers no, the step leaves the whole
    world as it was: matrix, label, selection, toast and storage, with
    nothing written. *)
Theorem import_declined_changes_nothing
  (w : World) (writable : bool) (m : Matrix) (l : option string) :
  hasData (allEvaluations (ui w)) = true ->
  step writable w (ImportFile (ParsedObject (Some m) l) false) = w.
Proof.
  intros Hdata. unfold step. simpl. rewrite Hdata. simpl.
  destruct w. reflexivity.
Qed.

Lemma import_declined_changes_nothing_witness :
  step true freshWorld (ImportFile strangerFile false) = freshWorld.
Proof.
  apply (import_declined_changes_nothing freshWorld true). reflexivity.
Defined.

(** X7: over a matrix without any positive score no question is asked: the
    import goes through whatever the answer would have been. *)
Theorem import_unasked_when_blank (st : State) (file : Parsed) (confirmed : bool) :
  (forall evaluator row subject v,
      In (evaluator, row) (allEvaluations st) -> In (subject, v) row -> v <= 0) ->
  importFromJson st file confirmed = importFromJson st file true /\
  forall m l, file = ParsedObject (Some m) l ->
              allEvaluations (importFromJson st file confirmed) = m.
Proof.
  intros Hblank. apply hasData_false in Hblank.
  destruct file as [msg | msg | [m |] l]; simpl; rewrite ?Hblank; simpl;
    (split; [reflexivity |]); intros m' l' [=]; subst.
  destruct (truthy_label l'); reflexivity.
Qed.

Lemma import_unasked_when_blank_witness :
  importFromJson (setAllEvaluations defaultState [("갑", [("을", 0)])])
                 strangerFile false
  = importFromJson (setAllEvaluations defaultState [("갑", [("을", 0)])])
                   strangerFile true /\
  forall m l, strangerFile = ParsedObject (Some m) l ->
              allEvaluations
                (importFromJson (setAllEvaluations defaultState [("갑", [("을", 0)])])
                                strangerFile false) = m.
Proof.
  apply (import_unasked_when_blank
           (setAllEvaluations defaultState [("갑", [("을", 0)])]) strangerFile false).
  intros evaluator row subject v [[= <- <-] | []] [[= <- <-] | []]. lia.
Defined.

(** X8: an import that goes through replaces the matrix by the file's,
    keeps the selected evaluator, shows the success toast, and touches the
    label only when the file brings a non-empty one: a file without label,
    or with an empty label, leaves the current label in place. *)
Theorem import_applied (st : State) (m : Matrix) (l : option string) (confirmed : bool) :
  hasData (allEvaluations st) = false \/ confirmed = true ->
  let st' := importFromJson st (ParsedObject (Some m) l) confirmed in
  allEvaluations st' = m /\
  currentScorer st' = currentScorer st /\
  toast st' = Some {| message := "파일을 성공적으로 불러왔습니다."; type := success |} /\
  (l = None \/ l = Some "" -> axisLabel st' = axisLabel st) /\
  (forall s, l = Some s -> s <> "" -> axisLabel st' = s).
Proof.
  intros Hgo. simpl.
  assert (Hguard : hasData (allEvaluations st) && negb confirmed = false).
  { destruct Hgo as [-> | ->]; [reflexivity | apply andb_false_r]. }
  rewrite Hguard. clear Hgo Hguard.
  destruct l as [s |]; simpl.
  - destruct (String.eqb_spec s "") as [-> | Hs]; simpl.
    + repeat split; try reflexivity. intros s' [= <-] H. contradiction.
    + repeat split; try reflexivity.
      * intros [H | H]; [discriminate H | injection H as ->; contradiction].
      * intros s' [= <-] _. reflexivity.
  - repeat split; try reflexivity. intros s' H. discriminate H.
Qed.

Lemma import_applied_witness :
  let st' := importFromJson defaultState strangerFile true in
  allEvaluations st' = [("손님", [("지운", 50)])] /\
  currentScorer st' = currentScorer defaultState /\
  toast st' = Some {| message := "파일을 성공적으로 불러왔습니다."; type := success |} /\
  (@None string = None \/ None = Some "" -> axisLabel st' = axisLabel defaultState) /\
  (forall s, None = Some s -> s <> "" -> axisLabel st' = s).
Proof.
  apply (import_applied defaultState [("손님", [("지운", 50)])] None true).
  right. reflexivity.
Defined.

(** X9: the import handler of the earlier version of the component installs
    the same matrix, label and selection as the current handler does once
    the user has agreed, and, like it, leaves them alone when the file cannot
    be used; the two differ in how they report (alert against toast) and in
    the question the current one asks. *)
Theorem importFromJson_v0_agrees (st : State) (file : Parsed) :
  let old := fst (importFromJson_v0 st file) in
  let new := importFromJson st file true in
  allEvaluations old = allEvaluations new /\
  axisLabel old = axisLabel new /\
  currentScorer old = currentScorer new /\
  (snd (importFromJson_v0 st file) <> None <-> import_failure (ImportFile file true)) /\
  (import_failure (ImportFile file true) -> old = st).
Proof.
  cbv zeta.
  destruct file as [msg | msg | [m |] l]; simpl;
    rewrite ?andb_false_r; simpl;
    repeat split; try reflexivity; try discriminate; tauto.
Qed.

(** ** Automatic saving *)

(** Handlers that do not reach the persistence effect leave matrix and label
    alone. *)
Lemma untouched_data (st : State) (e : Event) :
  touches st e = false ->
  allEvaluations (handle st e) = allEvaluations st /\
  axisLabel (handle st e) = axisLabel st.
Proof.
  destruct e as [s v | s [v |] | s [v |] | l | n | f c | | ok |]; simpl;
    try discriminate; try (split; reflexivity).
  - intros H. apply negb_false_iff, String.eqb_eq in H. subst. split; reflexivity.
  - destruct f as [msg | msg | [m |] l]; simpl; try (split; reflexivity).
    intros H. apply negb_false_iff in H. rewrite H. split; reflexivity.
  - destruct ok; split; reflexivity.
Qed.

Lemma step_in_sync (w : World) (e : Event) : in_sync w -> in_sync (step true w e).
Proof.
  unfold in_sync, step. intros Hw.
  destruct (touches (ui w) e) eqn:E; simpl; [reflexivity |].
  destruct (untouched_data _ _ E) as [-> ->]. exact Hw.
Qed.

Lemma run_in_sync (trace : list (bool * Event)) (w : World) :
  in_sync w -> Forall (fun we => fst we = true) trace -> in_sync (run w trace).
Proof.
  revert w. induction trace as [| [writable e] rest IH]; intros w Hw Hall;
    [exact Hw |].
  inversion Hall as [| ? ? Hwr Hrest]; subst. simpl in Hwr. subst writable.
  simpl. apply IH; [apply step_in_sync; exact Hw | exact Hrest].
Qed.

(** X10: as long as every write to local storage succeeds, the storage
    holds the snapshot of the current matrix and label after every event,
    whatever was stored before the component was mounted. *)
Theorem storage_follows_state (saved : Stored) (trace : list (bool * Event)) :
  Forall (fun we => fst we = true) trace ->
  in_sync (run (startup saved true) trace).
Proof.
  intros Hall. apply run_in_sync; [reflexivity | exact Hall].
Qed.

Lemma storage_follows_state_witness :
  in_sync (run (startup (text (SyntaxError "Unexpected token")) true)
             [(true, SliderChange "대성" 3); (true, ImportFile strangerFile true);
              (true, AxisLabelChange "매력도"); (true, ExportClick)]).
Proof.
  apply (storage_follows_state (text (SyntaxError "Unexpected token"))).
  repeat constructor.
Defined.

(** X11: reloading the page after a run whose writes all succeeded brings
    back the matrix as it was, and the label when it was not empty; an empty
    label comes back as the default label, the selected evaluator goes back
    to "지운" and no toast is shown. *)
Theorem reload_restores (saved : Stored) (trace : list (bool * Event)) :
  Forall (fun we => fst we = true) trace ->
  let w := run (startup saved true) trace in
  let reloaded := initState (localStorage w) in
  allEvaluations reloaded = allEvaluations (ui w) /\
  (axisLabel (ui w) <> "" -> axisLabel reloaded = axisLabel (ui w)) /\
  (axisLabel (ui w) = "" -> axisLabel reloaded = defaultAxisLabel) /\
  currentScorer reloaded = "지운" /\
  toast reloaded = None.
Proof.
  intros Hall. cbv zeta.
  assert (Hsync := run_in_sync trace (startup saved true) eq_refl Hall).
  unfold in_sync in Hsync. rewrite Hsync.
  generalize (ui (run (startup saved true) trace)). intros st.
  unfold initState, initAllEvaluations, initAxisLabel, JSON_roundtrip, truthy_label.
  cbn [allEvaluations axisLabel currentScorer toast].
  destruct (String.eqb_spec (axisLabel st) "") as [E | E];
    repeat split; try reflexivity; intros H; solve [contradiction | congruence].
Qed.

Lemma reload_restores_witness :
  let w := run (startup absent true)
             [(true, SliderChange "대성" 3); (true, AxisLabelChange "")] in
  let reloaded := initState (localStorage w) in
  allEvaluations reloaded = allEvaluations (ui w) /\
  (axisLabel (ui w) <> "" -> axisLabel reloaded = axisLabel (ui w)) /\
  (axisLabel (ui w) = "" -> axisLabel reloaded = defaultAxisLabel) /\
  currentScorer reloaded = "지운" /\
  toast reloaded = None.
Proof.
  apply (reload_restores absent). repeat constructor.
Defined.

(** X12: nothing changes the matrix or the label behind the back of the
    persistence effect: a step after which either differs from before has
    run the effect, so the new data is in the storage if the write
    succeeded, and the error toast is up if it did not. *)
Theorem data_change_is_saved (w : World) (writable : bool) (e : Event) :
  allEvaluations (ui (step writable w e)) <> allEvaluations (ui w)
  \/ axisLabel (ui (step writable w e)) <> axisLabel (ui w) ->
  (writable = true -> in_sync (step writable w e)) /\
  (writable = false ->
     toast (ui (step writable w e)) = Some storageFull /\
     localStorage (step writable w e) = localStorage w).
Proof.
  intros Hchanged. unfold step in *.
  destruct (touches (ui w) e) eqn:E.
  - split; intros ->; simpl; [reflexivity | split; reflexivity].
  - exfalso. simpl in Hchanged.
    destruct (untouched_data _ _ E) as [Hm Hl].
    destruct Hchanged as [H | H]; [apply H, Hm | apply H, Hl].
Qed.

Lemma data_change_is_saved_witness :
  (false = true -> in_sync (step false freshWorld (AxisLabelChange "매력도"))) /\
  (false = false ->
     toast (ui (step false freshWorld (AxisLabelChange "매력도"))) = Some storageFull /\
     localStorage (step false freshWorld (AxisLabelChange "매력도"))
     = localStorage freshWorld).
Proof.
  apply (data_change_is_saved freshWorld false (AxisLabelChange "매력도")).
  right. discriminate.
Defined.

(** ** Rankings *)

Lemma StronglySorted_firstn_skipn {A : Type} (R : A -> A -> Prop) (l : list A) :
  StronglySorted R l ->
  forall n a b, In a (firstn n l) -> In b (skipn n l) -> R a b.
Proof.
  induction 1 as [| x l' Hs IH Hx]; intros n a b Ha Hb.
  - destruct n; contradiction.
  - destruct n as [| n']; [contradiction |]. simpl in Ha, Hb.
    destruct Ha as [<- | Ha]; [| eapply IH; eassumption].
    rewrite Forall_forall in Hx. apply Hx.
    rewrite <- (firstn_skipn n' l'). apply in_or_app. now right.
Qed.

Lemma StronglySorted_firstn {A : Type} (R : A -> A -> Prop) (l : list A) (n : nat) :
  StronglySorted R l -> StronglySorted R (firstn n l).
Proof.
  intros Hs. revert n. induction Hs as [| x l' Hs IH Hx]; intros n.
  - destruct n; constructor.
  - destruct n as [| n']; simpl; constructor; [apply IH |].
    rewrite Forall_forall in *. intros y Hy. apply Hx.
    rewrite <- (firstn_skipn n' l'). apply in_or_app. now left.
Qed.

(** A sort by a descending numeric key puts larger keys first. *)
Lemma Array_sort_descending {A : Type} (key : A -> Z) (l : list A) :
  StronglySorted (fun a b => key b <= key a)
    (Array_sort (fun a b => key b - key a <=? 0) l).
Proof.
  apply Sorted_StronglySorted; [intros a b c; lia |].
  eapply Sorted_impl; [| apply Array_sort_sorted].
  - intros a b H. apply Z.leb_le in H. lia.
  - intros a b. rewrite !Z.leb_le. lia.
Qed.

Lemma given_In (s : string) (evals : Scores) (x : Z) :
  In (s, x) evals -> In x (given s evals).
Proof.
  intros Hin. unfold given. apply in_map_iff. exists (s, x). split; [reflexivity |].
  apply filter_In. split; [exact Hin | apply String.eqb_refl].
Qed.

Lemma all_scores_occurs (m : Matrix) (s : string) :
  all_scores m s <> [] <->
  exists evaluator row v, In (evaluator, row) m /\ In (s, v) row.
Proof.
  unfold all_scores. split.
  - intros Hne. destruct (flat_map (given s) (values m)) as [| x l] eqn:E;
      [contradiction |].
    assert (Hx : In x (flat_map (given s) (values m))) by (rewrite E; now left).
    apply in_flat_map in Hx. destruct Hx as (row & Hrow & Hx).
    apply in_map_iff in Hrow. destruct Hrow as ([evaluator r] & <- & Hr).
    exists evaluator, r, x. split; [exact Hr | apply In_given, Hx].
  - intros (evaluator & row & v & Hrow & Hv) Hnil.
    assert (Hx : In v (flat_map (given s) (values m))).
    { apply in_flat_map. exists row. split; [| apply given_In, Hv].
      change row with (snd (evaluator, row)). apply in_map. exact Hrow. }
    rewrite Hnil in Hx. contradiction.
Qed.

Lemma Sorted_Forall_impl {A : Type} (R R' : A -> A -> Prop) (P : A -> Prop)
  (l : list A) :
  (forall a b, R a b -> P a -> P b -> R' a b) ->
  Sorted R l -> Forall P l -> Sorted R' l.
Proof.
  intros Himp Hs. induction Hs as [| a l Hs IH Hhd]; intros Hall; [constructor |].
  inversion Hall as [| ? ? Ha Hl]; subst.
  constructor; [apply IH, Hl |].
  destruct Hhd as [| b l' Hab]; constructor.
  inversion Hl; subst. auto.
Qed.

Lemma averageScores_subject_occurs (m : Matrix) (s : string) :
  In s (keys (averageScores m)) ->
  exists evaluator row v, In (evaluator, row) m /\ In (s, v) row.
Proof.
  intros Hin. unfold averageScores, tally in Hin. rewrite tally_rows in Hin.
  unfold keys in Hin.
  apply (Permutation_in _
           (Permutation_sym (Permutation_map fst (Array_sort_perm _ _)))) in Hin.
  rewrite map_map in Hin. simpl in Hin.
  apply keys_add_total in Hin. destruct Hin as [[] | Hin].
  apply in_map_iff in Hin. destruct Hin as ([k v] & <- & Hkv).
  apply in_concat in Hkv. destruct Hkv as (row & Hrow & Hkv).
  apply in_map_iff in Hrow. destruct Hrow as ([evaluator r] & <- & Hr).
  exists evaluator, r, v. split; assumption.
Qed.

Lemma averageScores_numbers (m : Matrix) :
  plain_subjects m ->
  Forall (fun e => exists x, snd e = Some x) (averageScores m).
Proof.
  intros Hplain. apply Forall_forall. intros [s d] Hin.
  assert (Hs : inherited s = false).
  { destruct (averageScores_subject_occurs m s) as (evaluator & row & v & Hr & Hv).
    - change s with (fst (s, d)). apply in_map. exact Hin.
    - exact (Hplain _ _ _ _ Hr Hv). }
  apply averageScores_entry in Hin; [| exact Hs]. destruct Hin as [_ ->].
  eexists. reflexivity.
Qed.

Lemma averageScores_ranked (m : Matrix) :
  plain_subjects m -> StronglySorted ranked_before (averageScores m).
Proof.
  intros Hplain. apply Sorted_StronglySorted.
  - intros a b c (x & y & Ha & Hb & Hxy) (y' & z & Hb' & Hc & Hyz).
    exists x, z. repeat split; try assumption.
    rewrite Hb in Hb'. injection Hb' as <-. lia.
  - apply (Sorted_Forall_impl (fun a b => byScoreDescending a b = true) ranked_before
             (fun e => exists x, snd e = Some x)).
    + intros a b Hab [x Hx] [y Hy]. exists x, y. repeat split; try assumption.
      unfold byScoreDescending in Hab. rewrite Hx, Hy in Hab.
      apply Z.leb_le in Hab. lia.
    + unfold averageScores. destruct (tally m) as [totals counts].
      apply Array_sort_sorted. intros a b. unfold byScoreDescending.
      destruct (snd a) as [x |], (snd b) as [y |]; auto.
      rewrite !Z.leb_le. lia.
    + apply averageScores_numbers. exact Hplain.
Qed.

Lemma plain_subjects_check (m : Matrix) :
  forallb (fun row => forallb (fun e => negb (inherited (fst e))) (snd row)) m = true ->
  plain_subjects m.
Proof.
  intros Hcheck evaluator row subject v Hrow Hv.
  rewrite forallb_forall in Hcheck. specialize (Hcheck _ Hrow). simpl in Hcheck.
  rewrite forallb_forall in Hcheck. specialize (Hcheck _ Hv). simpl in Hcheck.
  apply negb_true_iff. exact Hcheck.
Qed.

(** X13: when no subject is called like a member of [Object.prototype], the
    ranking lists every subject that occurs in some submission, each exactly
    once and nobody else, every score is a number, and the scores
    descend. *)
Theorem averageScores_ranking (m : Matrix) :
  plain_subjects m ->
  NoDup (keys (averageScores m)) /\
  StronglySorted ranked_before (averageScores m) /\
  Forall (fun e => exists x, snd e = Some x) (averageScores m) /\
  forall subject,
    In subject (keys (averageScores m)) <->
    exists evaluator row v, In (evaluator, row) m /\ In (subject, v) row.
Proof.
  intros Hplain.
  split; [apply averageScores_NoDup |].
  split; [apply averageScores_ranked, Hplain |].
  split; [apply averageScores_numbers, Hplain |].
  intros subject. split; [apply averageScores_subject_occurs |].
  intros (evaluator & row & v & Hrow & Hv).
  assert (Hs : inherited subject = false) by exact (Hplain _ _ _ _ Hrow Hv).
  apply (in_map fst _
           (subject,
            Some (Math_round
                    (Qdiv (inject_Z (sum (all_scores m subject)))
                          (inject_Z (divisor_of m subject)))))).
  apply averageScores_entry; [exact Hs |]. split; [| reflexivity].
  apply all_scores_occurs. exists evaluator, row, v. split; assumption.
Qed.

Lemma averageScores_ranking_witness :
  NoDup (keys (averageScores getInitialData)) /\
  StronglySorted ranked_before (averageScores getInitialData) /\
  Forall (fun e => exists x, snd e = Some x) (averageScores getInitialData) /\
  forall subject,
    In subject (keys (averageScores getInitialData)) <->
    exists evaluator row v, In (evaluator, row) getInitialData /\ In (subject, v) row.
Proof.
  apply (averageScores_ranking getInitialData).
  apply plain_subjects_check. reflexivity.
Defined.

Lemma obj_get_map_keys {V : Type} (f : string -> V) (ns : list string) (n : string) :
  obj_get (map (fun k => (k, f k)) ns) n = if in_dec string_dec n ns then Some (f n) else None.
Proof.
  induction ns as [| k rest IH]; simpl; [reflexivity |].
  destruct (String.eqb_spec k n) as [-> | Hne].
  - destruct (string_dec n n); [reflexivity | contradiction].
  - rewrite IH. destruct (string_dec k n); [contradiction |].
    destruct (in_dec string_dec n rest); reflexivity.
Qed.

Lemma hasEvaluated_map (m : Matrix) :
  hasEvaluated m
  = map (fun n => (n, 0 <? sum (values (row_or_empty (obj_get m n)))))
        participantsNames.
Proof. reflexivity. Qed.

Lemma sum_nonneg (l : list Z) : (forall x, In x l -> 0 <= x) -> 0 <= sum l.
Proof.
  induction l as [| y rest IH]; intros H; [unfold sum; simpl; lia |].
  rewrite sum_cons.
  assert (0 <= y) by (apply H; now left).
  assert (0 <= sum rest) by (apply IH; intros x Hx; apply H; now right).
  lia.
Qed.

Lemma sum_positive_iff (l : list Z) :
  (forall x, In x l -> 0 <= x) ->
  (0 < sum l <-> exists x, In x l /\ 0 < x).
Proof.
  intros Hpos. split.
  - intros Hsum. induction l as [| y rest IH]; [unfold sum in Hsum; simpl in Hsum; lia |].
    destruct (Z.ltb_spec 0 y) as [Hy | Hy]; [exists y; split; [now left | exact Hy] |].
    rewrite sum_cons in Hsum.
    destruct IH as (x & Hx & Hx0).
    + intros x Hx. apply Hpos. now right.
    + lia.
    + exists x. split; [now right | exact Hx0].
  - intros (x & Hx & Hx0). induction l as [| y rest IH]; [contradiction |].
    rewrite sum_cons.
    assert (0 <= y) by (apply Hpos; now left).
    assert (0 <= sum rest) by (apply sum_nonneg; intros z Hz; apply Hpos; now right).
    destruct Hx as [-> | Hx]; [lia |].
    assert (0 < sum rest); [| lia].
    apply IH; [intros z Hz; apply Hpos; now right | exact Hx].
Qed.

(** X14: the check marks.  [hasEvaluated] holds one flag per participant, in
    the order of the participants; a participant without a row is flagged
    [false]; and in a matrix without negative scores the flag is [true]
    exactly for the participants who gave somebody a positive score. *)
Theorem hasEvaluated_flags (m : Matrix) :
  keys (hasEvaluated m) = participantsNames /\
  (forall who, In who participantsNames -> obj_get m who = None ->
               obj_get (hasEvaluated m) who = Some false) /\
  (forall who, ~ In who participantsNames -> obj_get (hasEvaluated m) who = None) /\
  (nonnegative m ->
   forall who,
     obj_get (hasEvaluated m) who = Some true <->
     In who participantsNames /\
     exists subject v, In (subject, v) (row_or_empty (obj_get m who)) /\ 0 < v).
Proof.
  rewrite hasEvaluated_map. split; [| split; [| split]].
  - reflexivity.
  - intros who Hin Hnone. rewrite obj_get_map_keys, Hnone.
    destruct (in_dec string_dec who participantsNames); [reflexivity | contradiction].
  - intros who Hout. rewrite obj_get_map_keys.
    destruct (in_dec string_dec who participantsNames); [contradiction | reflexivity].
  - intros Hpos who. rewrite obj_get_map_keys.
    assert (Hrow : forall x, In x (values (row_or_empty (obj_get m who))) -> 0 <= x).
    { intros x Hx. destruct (obj_get m who) as [row |] eqn:E; [| contradiction].
      apply obj_get_In in E. apply in_map_iff in Hx.
      destruct Hx as ([s v] & <- & Hs). exact (Hpos _ _ _ _ E Hs). }
    destruct (in_dec string_dec who participantsNames) as [Hin | Hout].
    + split.
      * intros [= Hflag]. apply Z.ltb_lt in Hflag.
        apply sum_positive_iff in Hflag; [| exact Hrow].
        destruct Hflag as (x & Hx & Hx0). apply in_map_iff in Hx.
        destruct Hx as ([s v] & <- & Hs).
        split; [exact Hin |]. exists s, v. split; assumption.
      * intros (_ & s & v & Hs & Hv).
        f_equal. apply Z.ltb_lt. apply sum_positive_iff; [exact Hrow |].
        exists v. split; [| exact Hv].
        change v with (snd (s, v)). apply in_map. exact Hs.
    + split; [discriminate | intros [Hin _]; contradiction].
Qed.



(** X16: the "TOP 3" panel shows three persons of the current list, or all
    of them when there are fewer, best score first, and nobody left out
    scores higher than somebody shown. *)
Theorem topThree_best (persons : list Person) :
  List.length (topThree persons) = Nat.min 3 (List.length persons) /\
  StronglySorted (fun a b => score b <= score a) (topThree persons) /\
  exists rest,
    Permutation persons (topThree persons ++ rest) /\
    forall a b, In a (topThree persons) -> In b rest -> score b <= score a.
Proof.
  unfold topThree.
  set (sorted := Array_sort (fun a b => score b - score a <=? 0) persons).
  assert (Hs : StronglySorted (fun a b => score b <= score a) sorted)
    by apply (Array_sort_descending score).
  assert (Hp : Permutation persons sorted) by apply Array_sort_perm.
  split; [| split].
  - rewrite length_firstn, (Permutation_length Hp). reflexivity.
  - apply StronglySorted_firstn. exact Hs.
  - exists (skipn 3 sorted). split.
    + rewrite firstn_skipn. exact Hp.
    + intros a b Ha Hb.
      exact (StronglySorted_firstn_skipn _ _ Hs 3 a b Ha Hb).
Qed.

(** ** Positions and offsets of the labels *)

Lemma applyOffsets_Forall (P : Item -> Prop) (y : list (nat * Z)) (items : list Item) :
  (forall p x o off, P (single p x o) -> P (single p x (Some off))) ->
  Forall P items -> Forall P (applyOffsets y items).
Proof.
  intros HP. apply mapi_from_Forall. intros [p x o | x ms] i H; simpl; [| exact H].
  destruct (map_get y i); [apply (HP p x o), H | exact H].
Qed.

(** Whatever holds of the item made from any group, and does not depend on
    the offset, holds of every item of the layout. *)
Lemma graphDisplayItems_Forall (P : Item -> Prop)
  (localeCompare : string -> string -> Z) (persons : list Person) :
  (forall p x o off, P (single p x o) -> P (single p x (Some off))) ->
  (forall g, P (toItem g)) ->
  Forall P (graphDisplayItems localeCompare persons).
Proof.
  intros Hoff Hitem. unfold graphDisplayItems.
  eapply Permutation_Forall; [apply Array_sort_perm |].
  apply applyOffsets_Forall; [exact Hoff |].
  apply Forall_map. apply Forall_forall. intros g _. apply Hitem.
Qed.

Lemma clampX_bounds (x : Q) : (3 <= clampX x)%Q /\ (clampX x <= 97)%Q.
Proof.
  unfold clampX. split.
  - apply Q.min_glb; [discriminate | apply Q.le_max_l].
  - apply Q.le_min_l.
Qed.

Lemma clampX_inside (x : Q) : (3 <= x)%Q -> (x <= 97)%Q -> (clampX x == x)%Q.
Proof.
  intros Hlo Hhi. unfold clampX.
  rewrite Q.max_r by exact Hlo. apply Q.min_r. exact Hhi.
Qed.

(** X17: every label of the layout is placed between 3 and 97 on the axis,
    and a label of its own (a single item) whose score lies between 3 and 97
    is placed exactly at its score. *)
Theorem graphDisplayItems_positions
  (localeCompare : string -> string -> Z) (persons : list Person) :
  Forall
    (fun it =>
       (3 <= centerX it)%Q /\ (centerX it <= 97)%Q /\
       match it with
       | single p x _ => 3 <= score p <= 97 -> (x == inject_Z (score p))%Q
       | cluster _ _ => True
       end)
    (graphDisplayItems localeCompare persons).
Proof.
  apply graphDisplayItems_Forall.
  - intros p x o off H. exact H.
  - intros g.
    assert (Hb := clampX_bounds (centerScore g)).
    destruct g as [| p [| q r]]; simpl; repeat split; try apply Hb.
    intros [Hlo Hhi].
    assert (Hc : (centerScore [p] == inject_Z (score p))%Q).
    { unfold centerScore. simpl. unfold Qdiv. change (/ inject_Z 1)%Q with 1%Q.
      apply Qmult_1_r. }
    fold (clampX (centerScore [p])).
    rewrite clampX_inside; [exact Hc | rewrite Hc | rewrite Hc].
    + change 3%Q with (inject_Z 3). rewrite <- Zle_Qle. exact Hlo.
    + change 97%Q with (inject_Z 97). rewrite <- Zle_Qle. exact Hhi.
Qed.

Lemma map_get_set (y : list (nat * Z)) (k k' : nat) (v : Z) :
  map_get (map_set y k v) k' = if Nat.eqb k k' then Some v else map_get y k'.
Proof.
  induction y as [| [k0 v0] rest IH]; simpl; [reflexivity |].
  destruct (Nat.eqb_spec k0 k) as [-> | Hne]; simpl.
  - destruct (Nat.eqb k k'); reflexivity.
  - rewrite IH. destruct (Nat.eqb_spec k0 k') as [-> | Hne'];
      [| reflexivity].
    destruct (Nat.eqb_spec k k'); [congruence | reflexivity].
Qed.

Lemma stagger_offsets (singles done : list SingleIndex) (y : list (nat * Z)) :
  (forall k v, map_get y k = Some v -> v = VERTICAL_OFFSET \/ v = - VERTICAL_OFFSET) ->
  forall k v, map_get (fold_left (stagger_step singles) done y) k = Some v ->
              v = VERTICAL_OFFSET \/ v = - VERTICAL_OFFSET.
Proof.
  revert y. induction done as [| s rest IH]; intros y Hy; [exact Hy |].
  simpl. apply IH. intros k v. unfold stagger_step.
  destruct (List.length _ <? 2)%nat; [apply Hy |].
  destruct (findIndex _ _) as [myPos |]; [| apply Hy].
  rewrite map_get_set. destruct (Nat.eqb (si_idx s) k); [| apply Hy].
  intros [= <-]. destruct (Nat.even myPos); auto.
Qed.

(** X18: vertical staggering moves a label by 26 pixels up or down or not
    at all, and only labels of single items are moved: every item of the
    layout carries no offset, +26 or -26, and a cluster carries none. *)
Theorem graphDisplayItems_offsets
  (localeCompare : string -> string -> Z) (persons : list Person) :
  Forall
    (fun it =>
       (yOffset_of it = None \/ yOffset_of it = Some 26 \/ yOffset_of it = Some (-26)) /\
       match it with
       | single _ _ _ => True
       | cluster _ ms => yOffset_of it = None /\ List.length ms <> 1%nat
       end)
    (graphDisplayItems localeCompare persons).
Proof.
  unfold graphDisplayItems.
  eapply Permutation_Forall; [apply Array_sort_perm |].
  match goal with
  | |- Forall _ (applyOffsets ?y ?items) =>
      assert (Hy : forall k v, map_get y k = Some v ->
                               v = VERTICAL_OFFSET \/ v = - VERTICAL_OFFSET)
  end.
  { apply stagger_offsets. intros k v H. discriminate H. }
  unfold applyOffsets, mapi.
  apply mapi_from_Forall
    with (P := fun it => match it with
                         | single _ _ o => o = None
                         | cluster _ ms => List.length ms <> 1%nat
                         end).
  - intros [p x o | x ms] i H; simpl.
    + destruct (map_get _ i) as [off |] eqn:E; simpl.
      * split; [| exact I]. right. destruct (Hy _ _ E) as [-> | ->]; auto.
      * split; [| exact I]. left. exact H.
    + split; [now left | split; [reflexivity | exact H]].
  - apply Forall_map. apply Forall_forall. intros g _.
    destruct g as [| p [| q r]]; simpl; [discriminate | reflexivity | discriminate].
Qed.

Lemma singleIndices_from (items : list Item) (i : nat) :
  let l :=
    List.concat
      (mapi_from (fun item idx =>
                    match item with
                    | single p x _ => [{| si_idx := idx; si_x := x; si_name := name p |}]
                    | cluster _ _ => []
                    end) i items) in
  (forall s, In s l -> (i <= si_idx s)%nat) /\ NoDup (map si_idx l).
Proof.
  cbv zeta. revert i. induction items as [| it rest IH]; intros i; simpl.
  - split; [intros s [] | constructor].
  - destruct (IH (S i)) as [Hge Hnd]. destruct it as [p x o | x ms]; simpl.
    + split.
      * intros s [<- | Hs]; simpl; [lia |]. specialize (Hge s Hs). lia.
      * constructor; [| exact Hnd]. intros Hin. apply in_map_iff in Hin.
        destruct Hin as (s & Hs & Hin). specialize (Hge s Hin). lia.
    + split; [| exact Hnd]. intros s Hs. specialize (Hge s Hs). lia.
Qed.

Lemma singleIndices_NoDup (items : list Item) : NoDup (map si_idx (singleIndices items)).
Proof. apply (singleIndices_from items 0). Qed.

Lemma filter_at_most_one {A : Type} (f : A -> nat) (p : A -> bool) (k : nat) (l : list A) :
  NoDup (map f l) -> (forall t, In t l -> p t = true -> f t = k) ->
  (List.length (filter p l) <= 1)%nat.
Proof.
  induction l as [| a rest IH]; simpl; intros Hnd Hk; [lia |].
  inversion Hnd as [| ? ? Hnotin Hrest]; subst.
  assert (IH' := IH Hrest (fun t Ht => Hk t (or_intror Ht))).
  destruct (p a) eqn:Ea; [| exact IH']. simpl.
  destruct (filter p rest) as [| b more] eqn:Ef; [simpl; lia |].
  exfalso. apply Hnotin.
  assert (Hb : In b (filter p rest)) by (rewrite Ef; now left).
  apply filter_In in Hb. destruct Hb as [Hb Hpb].
  rewrite (Hk a (or_introl eq_refl) Ea), <- (Hk b (or_intror Hb) Hpb).
  apply in_map. exact Hb.
Qed.

Lemma mapi_from_same {A : Type} (f : A -> nat -> A) (l : list A) (i : nat) :
  (forall x j, f x j = x) -> mapi_from f i l = l.
Proof.
  intros Hf. revert i. induction l as [| x rest IH]; intros i; simpl; [reflexivity |].
  now rewrite Hf, IH.
Qed.

Lemma stagger_idle (singles done : list SingleIndex) (y : list (nat * Z)) :
  (forall s, In s done ->
             (List.length
                (filter (fun t => Qltb (Qabs (si_x t - si_x s)) STAGGER_THRESHOLD) singles)
              <= 1)%nat) ->
  fold_left (stagger_step singles) done y = y.
Proof.
  revert y. induction done as [| s rest IH]; intros y Hall; [reflexivity |].
  simpl. rewrite IH by (intros t Ht; apply Hall; now right).
  unfold stagger_step.
  assert (Hlen := Hall s (or_introl eq_refl)).
  rewrite (Permutation_length
             (Array_sort_perm (fun a b => Qle_bool (si_x a - si_x b) 0)
                (filter (fun t => Qltb (Qabs (si_x t - si_x s)) STAGGER_THRESHOLD)
                   singles))) in Hlen.
  destruct (Nat.ltb_spec
              (List.length
                 (Array_sort (fun a b => Qle_bool (si_x a - si_x b) 0)
                    (filter (fun t => Qltb (Qabs (si_x t - si_x s)) STAGGER_THRESHOLD)
                       singles))) 2); [reflexivity | lia].
Qed.

(** X19: when the single items lie at least 18 apart from one another,
    nothing is staggered: every item of the layout comes without vertical
    offset. *)
Theorem graphDisplayItems_unstaggered
  (localeCompare : string -> string -> Z) (persons : list Person) :
  (forall s t,
      In s (layout_singles localeCompare persons) ->
      In t (layout_singles localeCompare persons) ->
      si_idx s <> si_idx t ->
      (STAGGER_THRESHOLD <= Qabs (si_x t - si_x s))%Q) ->
  Forall (fun it => yOffset_of it = None) (graphDisplayItems localeCompare persons).
Proof.
  intros Hfar. unfold graphDisplayItems. fold (layout_singles localeCompare persons).
  eapply Permutation_Forall; [apply Array_sort_perm |].
  rewrite stagger_idle.
  - unfold applyOffsets, mapi. rewrite mapi_from_same.
    + apply Forall_map. apply Forall_forall. intros g _.
      destruct g as [| p [| q r]]; reflexivity.
    + intros [p x o | x ms] j; reflexivity.
  - intros s Hs.
    apply (filter_at_most_one si_idx _ (si_idx s)).
    + apply singleIndices_NoDup.
    + intros t Ht Hnear.
      destruct (Nat.eq_dec (si_idx t) (si_idx s)) as [Heq | Hne]; [exact Heq |].
      exfalso. specialize (Hfar s t Hs Ht (fun H => Hne (eq_sym H))).
      unfold Qltb in Hnear. apply negb_true_iff in Hnear.
      apply Qle_bool_iff in Hfar. congruence.
Qed.

Lemma graphDisplayItems_unstaggered_witness :
  Forall (fun it => yOffset_of it = None)
         (graphDisplayItems codePointCompare spreadScores).
Proof.
  apply (graphDisplayItems_unstaggered codePointCompare spreadScores).
  intros s t Hs Ht Hne. vm_compute in Hs, Ht.
  repeat (destruct Hs as [<- | Hs]; [| try contradiction]);
    repeat (destruct Ht as [<- | Ht]; [| try contradiction]);
    try (exfalso; apply Hne; reflexivity);
    vm_compute; discriminate.
Defined.

(** ** Gaps between groups *)

Lemma last_opt_In {A : Type} (l : list A) (x : A) : last_opt l = Some x -> In x l.
Proof.
  destruct l as [| a l] using rev_ind; [discriminate |].
  rewrite last_opt_snoc. intros [= ->]. apply in_or_app. right. now left.
Qed.

Lemma StronglySorted_app_inv {A : Type} (R : A -> A -> Prop) (l1 l2 : list A) :
  StronglySorted R (l1 ++ l2) ->
  StronglySorted R l2 /\ forall x y, In x l1 -> In y l2 -> R x y.
Proof.
  induction l1 as [| a rest IH]; simpl; intros Hs.
  - split; [exact Hs | intros x y []].
  - inversion Hs as [| ? ? Hs' Ha]; subst. destruct (IH Hs') as [H2 Hcross].
    split; [exact H2 |]. intros x y [<- | Hx] Hy; [| auto].
    rewrite Forall_forall in Ha. apply Ha. apply in_or_app. now right.
Qed.

Lemma runs_from_gapped (l c : list Person) :
  StronglySorted (fun a b => score a <= score b) (c ++ l) ->
  gapped (runs_from c l).
Proof.
  revert c. induction l as [| p rest IH]; intros c Hs; simpl.
  - destruct c; simpl; exact I.
  - destruct (last_opt c) as [prev |] eqn:E.
    + destruct (Z.leb_spec (Z.abs (score p - score prev)) SCORE_BAND) as [Hin | Hout].
      * apply IH. rewrite <- app_assoc. exact Hs.
      * destruct (StronglySorted_app_inv _ _ _ Hs) as [Hrest Hcross].
        assert (Hgap := IH [p] Hrest).
        destruct (runs_from_head rest [p]) as (ext & more & Heq); [discriminate |].
        rewrite Heq in *. simpl. split; [| exact Hgap].
        intros a b Ha [= <-]. rewrite E in Ha. injection Ha as <-.
        assert (score prev <= score p).
        { apply Hcross; [apply last_opt_In, E | now left]. }
        lia.
    + apply last_opt_None in E. subst c. apply IH. exact Hs.
Qed.

Lemma sorted_by_score (localeCompare : string -> string -> Z) (persons : list Person) :
  (forall a b, localeCompare a b <= 0 \/ localeCompare b a <= 0) ->
  StronglySorted (fun a b => score a <= score b)
    (Array_sort (fun a b => byScoreThenName localeCompare a b <=? 0) persons).
Proof.
  intros Htotal.
  apply Sorted_StronglySorted; [intros a b c; lia |].
  eapply Sorted_impl; [| apply Array_sort_sorted].
  - intros a b H. apply byScoreThenName_order in H. destruct H as [H | [H _]]; lia.
  - apply byScoreThenName_total. exact Htotal.
Qed.

(** X20: neighbouring groups of the layout are more than 12 points apart:
    the lowest score of a group exceeds the highest score of the group
    before it by more than 12, so no two groups could have been merged. *)
Theorem groupByBand_gaps (localeCompare : string -> string -> Z) (persons : list Person) :
  (forall a b, localeCompare a b <= 0 \/ localeCompare b a <= 0) ->
  gapped
    (groupByBand
       (Array_sort (fun a b => byScoreThenName localeCompare a b <=? 0) persons)).
Proof.
  intros Htotal. rewrite groupByBand_runs. apply runs_from_gapped. simpl.
  apply sorted_by_score. exact Htotal.
Qed.

Lemma groupByBand_gaps_witness :
  gapped
    (groupByBand
       (Array_sort (fun a b => byScoreThenName codePointCompare a b <=? 0)
          (currentScores getInitialData "지운"))).
Proof.
  exact (groupByBand_gaps codePointCompare (currentScores getInitialData "지운")
           codePointCompare_total).
Defined.

(** ** The list of the current evaluator *)

Lemma mapi_from_nth {A B : Type} (f : A -> nat -> B) (l : list A) (idx i : nat) :
  nth_error (mapi_from f idx l) i
  = option_map (fun x => f x (idx + i)%nat) (nth_error l i).
Proof.
  revert idx i. induction l as [| x rest IH]; intros idx [| i]; simpl;
    try reflexivity.
  - now rewrite Nat.add_0_r.
  - rewrite IH. now rewrite Nat.add_succ_r.
Qed.

(** X21: the list of the current evaluator shows that evaluator's row entry
    by entry, in the row's order, and is empty when the evaluator has no row;
    the entry at position [i] gets the hue [22.5 * i], so that in a row of at
    most sixteen entries all hues lie below 360 and no two entries share
    one. *)
Theorem currentScores_entries (m : Matrix) (scorer : string) :
  let row := row_or_empty (obj_get m scorer) in
  let list := currentScores m scorer in
  map name list = keys row /\
  map score list = values row /\
  (obj_get m scorer = None -> list = []) /\
  (forall i p, nth_error list i = Some p ->
               (hue p == inject_Z (Z.of_nat i) * (45 # 2))%Q) /\
  ((List.length row <= 16)%nat ->
   forall i j p q,
     nth_error list i = Some p -> nth_error list j = Some q ->
     (0 <= hue p)%Q /\ (hue p < 360)%Q /\ ((hue p == hue q)%Q -> i = j)).
Proof.
  cbv zeta.
  assert (Hhue : forall i p, nth_error (currentScores m scorer) i = Some p ->
                             (hue p == inject_Z (Z.of_nat i) * (45 # 2))%Q
                             /\ (i < List.length (row_or_empty (obj_get m scorer)))%nat).
  { intros i p Hp. unfold currentScores, mapi in Hp. rewrite mapi_from_nth in Hp.
    destruct (nth_error (row_or_empty (obj_get m scorer)) i) as [e |] eqn:E;
      [| discriminate].
    simpl in Hp. injection Hp as <-. simpl. split.
    - rewrite inject_Z_mult. field.
    - apply nth_error_Some. congruence. }
  split; [apply currentScores_names |]. split; [apply currentScores_scores |].
  split; [intros H; unfold currentScores; rewrite H; reflexivity |].
  split; [intros i p Hp; apply (Hhue i p Hp) |].
  intros Hlen i j p q Hp Hq.
  destruct (Hhue i p Hp) as [Hi Hib]. destruct (Hhue j q Hq) as [Hj Hjb].
  assert (Hi16 : (inject_Z (Z.of_nat i) <= 15)%Q).
  { change 15%Q with (inject_Z 15). rewrite <- Zle_Qle. lia. }
  assert (Hi0 : (0 <= inject_Z (Z.of_nat i))%Q).
  { change 0%Q with (inject_Z 0). rewrite <- Zle_Qle. lia. }
  split; [rewrite Hi; lra |]. split; [rewrite Hi; lra |].
  intros Heq. rewrite Hi, Hj in Heq.
  assert (Hz : (inject_Z (Z.of_nat i) == inject_Z (Z.of_nat j))%Q) by lra.
  apply Nat2Z.inj. apply inject_Z_injective. exact Hz.
Qed.
